(** * CartPoleEnv (task3.py): a shallow embedding and its properties

    The environment of [task3.py] is a Python class over binary64 floats.
    It is embedded here over Rocq's primitive [float] (IEEE 754 binary64,
    the arithmetic of Python's [float] and of [numpy.float64]), with the
    order of the floating-point operations kept as Python parses them.

    What the class calls but does not define is an interface:
    - [NumPy]: a [RandomState] with [uniform] and [randn], and the
      constructor of a generator from an integer seed;
    - [LibM]: [math.cos] and [math.sin] on finite arguments;
    - [Rendering]: what gym's viewer draws.
    Of gym itself the model has what the class relies on: the checks of
    [seeding.np_random], the membership test of [Discrete(2)], and the
    names the module [gym.logger] defines.
    The instance attribute [self.np_random] and the module-level generator
    behind [np.random.randn] are two separate generator states. *)

From Stdlib Require Import Floats ZArith List Bool Lia String.
Import ListNotations.

Set Warnings "-inexact-float".

Local Open Scope float_scope.

(** ** External interfaces *)

(** numpy's legacy generator, as a state-passing interface. [seeded s] is
    the generator [seeding.np_random] builds from the integer [s]. *)
Class NumPy : Type := {
  RandomState : Type;
  seeded : Z -> RandomState;
  uniform : float -> float -> RandomState -> float * RandomState;
  randn : RandomState -> float * RandomState
}.

(** The C library behind [math.cos] and [math.sin]. *)
Class LibM : Type := {
  cos : float -> float;
  sin : float -> float
}.

(** Python exceptions the modelled methods can raise. [GymError] is
    [gym.error.Error]. *)
Inductive Exn : Type :=
| AssertionError
| TypeError
| ValueError
| AttributeError
| GymError.

(** [np.array(self.state)]: four floats, or the 0-d object array that
    [np.array(None)] builds. *)
Inductive ndarray : Type :=
| Array4 (x x_dot theta theta_dot : float)
| ArrayNone.

(** The tuple returned by [step]; [info] is the empty dict. *)
Record StepResult : Type := {
  observation : ndarray;
  reward : float;
  done : bool;
  info : list (string * float)
}.

(** ** Pure helpers *)

(** [np.sign] on a float64: -1 below zero, 1 above, 0 at either zero, and
    the argument itself (a NaN) otherwise. *)
Definition np_sign (x : float) : float :=
  if x <? 0 then -1
  else if 0 <? x then 1
  else if x =? 0 then 0
  else x.

(** [spaces.Discrete(n).contains] on a Python int. *)
Definition contains (n : Z) (action : Z) : bool :=
  ((0 <=? action) && (action <? n))%Z.

(** [math.pi] *)
Definition math_pi : float := 3.141592653589793.

Definition np_array (st : option (float * float * float * float)) : ndarray :=
  match st with
  | Some (x, x_dot, theta, theta_dot) => Array4 x x_dot theta theta_dot
  | None => ArrayNone
  end.

Section Model.

Context {NP : NumPy} {LM : LibM}.

(** ** The instance *)

Record CartPoleEnv : Type := {
  gravity : float;
  masscart : float;
  masspole : float;
  total_mass : float;
  length : float;
  polemass_length : float;
  np_random : RandomState;
  force_mag : float;
  tau : float;
  frictioncart : float;
  frictionpole : float;
  gravity_eps : float;
  frictioncart_eps : float;
  frictionpole_eps : float;
  theta_threshold_radians : float;
  x_threshold : float;
  action_space : Z;
  state : option (float * float * float * float);
  steps_beyond_done : option Z
}.

Definition set_np_random (r : RandomState) (e : CartPoleEnv) : CartPoleEnv :=
  {| gravity := gravity e; masscart := masscart e; masspole := masspole e;
     total_mass := total_mass e; length := length e;
     polemass_length := polemass_length e; np_random := r;
     force_mag := force_mag e; tau := tau e; frictioncart := frictioncart e;
     frictionpole := frictionpole e; gravity_eps := gravity_eps e;
     frictioncart_eps := frictioncart_eps e;
     frictionpole_eps := frictionpole_eps e;
     theta_threshold_radians := theta_threshold_radians e;
     x_threshold := x_threshold e; action_space := action_space e;
     state := state e; steps_beyond_done := steps_beyond_done e |}.

Definition set_state (s : option (float * float * float * float))
  (e : CartPoleEnv) : CartPoleEnv :=
  {| gravity := gravity e; masscart := masscart e; masspole := masspole e;
     total_mass := total_mass e; length := length e;
     polemass_length := polemass_length e; np_random := np_random e;
     force_mag := force_mag e; tau := tau e; frictioncart := frictioncart e;
     frictionpole := frictionpole e; gravity_eps := gravity_eps e;
     frictioncart_eps := frictioncart_eps e;
     frictionpole_eps := frictionpole_eps e;
     theta_threshold_radians := theta_threshold_radians e;
     x_threshold := x_threshold e; action_space := action_space e;
     state := s; steps_beyond_done := steps_beyond_done e |}.

Definition set_steps_beyond_done (n : option Z) (e : CartPoleEnv)
  : CartPoleEnv :=
  {| gravity := gravity e; masscart := masscart e; masspole := masspole e;
     total_mass := total_mass e; length := length e;
     polemass_length := polemass_length e; np_random := np_random e;
     force_mag := force_mag e; tau := tau e; frictioncart := frictioncart e;
     frictionpole := frictionpole e; gravity_eps := gravity_eps e;
     frictioncart_eps := frictioncart_eps e;
     frictionpole_eps := frictionpole_eps e;
     theta_threshold_radians := theta_threshold_radians e;
     x_threshold := x_threshold e; action_space := action_space e;
     state := state e; steps_beyond_done := n |}.

(** [seeding.create_seed(a)]: an int is reduced modulo [2**64]; for
    [None] the system draws eight random bytes, and [entropy] is the
    integer they spell. *)
Definition create_seed (a : option Z) (entropy : Z) : Z :=
  match a with
  | None => entropy
  | Some a => (a mod 2 ^ 64)%Z
  end.

(** [seeding.np_random(seed)]: a seed that is given and negative is
    refused with [gym.error.Error]; otherwise the generator is built from
    [create_seed(seed)], which is returned with it. *)
Definition seeding_np_random (seed : option Z) (entropy : Z)
  : Exn + RandomState * Z :=
  match seed with
  | Some s0 =>
      if (s0 <? 0)%Z then inl GymError
      else let s := create_seed seed entropy in inr (seeded s, s)
  | None => let s := create_seed seed entropy in inr (seeded s, s)
  end.

(** [CartPoleEnv.__init__]. The banner printed on stdout is not modelled;
    [case] has no other use. [self.seed()] passes [None], which
    [seeding.np_random] never refuses. *)
Definition init (case : Z) (entropy : Z) : CartPoleEnv :=
  let gravity := 9.8 in
  let masscart := 1.0 in
  let masspole := 0.4 in
  let total_mass := masspole + masscart in
  let length := 0.5 in
  let polemass_length := masspole * length in
  let rng := match seeding_np_random None entropy with
             | inr (rng, _) => rng
             | inl _ => seeded entropy
             end in
  let '(u, rng) := uniform (-0.30) 0.30 rng in
  let force_mag := 10.0 * (1 + u) in
  {| gravity := gravity; masscart := masscart; masspole := masspole;
     total_mass := total_mass; length := length;
     polemass_length := polemass_length; np_random := rng;
     force_mag := force_mag; tau := 0.02; frictioncart := 5e-4;
     frictionpole := 2e-6; gravity_eps := 0.99; frictioncart_eps := 0.99;
     frictionpole_eps := 0.99;
     theta_threshold_radians := 24 * math_pi / 360;
     x_threshold := 2.4; action_space := 2;
     state := None; steps_beyond_done := None |}.

(** ** The process: one instance, numpy's global generator, the log

    [warnings] is the number of messages gym's logger has printed. *)

Record World : Type := {
  self : CartPoleEnv;
  np_random_global : RandomState;
  warnings : nat
}.

(** Computations that read and write the world and may raise. What was
    written before a [raise] stays written, as in Python. *)
Definition M (A : Type) : Type := World -> (Exn + A) * World.

Definition ret {A} (a : A) : M A := fun w => (inr a, w).

Definition bind {A B} (m : M A) (k : A -> M B) : M B :=
  fun w =>
    match m w with
    | (inl e, w') => (inl e, w')
    | (inr a, w') => k a w'
    end.

Definition raise {A} (e : Exn) : M A := fun w => (inl e, w).

Definition attr {A} (field : CartPoleEnv -> A) : M A :=
  fun w => (inr (field (self w)), w).

Definition assign (upd : CartPoleEnv -> CartPoleEnv) : M unit :=
  fun w =>
    (inr tt, {| self := upd (self w);
                np_random_global := np_random_global w;
                warnings := warnings w |}).

(** [self.np_random.uniform(low, high)] *)
Definition self_np_random_uniform (low high : float) : M float :=
  fun w =>
    let '(u, r) := uniform low high (np_random (self w)) in
    (inr u, {| self := set_np_random r (self w);
               np_random_global := np_random_global w;
               warnings := warnings w |}).

(** [np.random.randn()]: a draw from the module-level generator *)
Definition np_random_randn : M float :=
  fun w =>
    let '(g, r) := randn (np_random_global w) in
    (inr g, {| self := self w; np_random_global := r;
               warnings := warnings w |}).

(** [logger.warning(...)], with [logger] the module [gym.logger] that
    line 4 imports: the module defines [debug], [info], [warn] and
    [error], and no [warning], so looking the attribute up raises before
    anything is logged. *)
Definition logger_warning : M unit := raise AttributeError.

(** [assert cond] *)
Definition assert_ (cond : bool) : M unit :=
  if cond then ret tt else raise AssertionError.

(** [x, x_dot, theta, theta_dot = state] *)
Definition unpack4 (st : option (float * float * float * float))
  : M (float * float * float * float) :=
  match st with
  | Some t => ret t
  | None => raise TypeError
  end.

(** [math.cos] and [math.sin] raise [ValueError] on an infinity. *)
Definition math_cos (x : float) : M float :=
  if is_infinity x then raise ValueError else ret (cos x).

Definition math_sin (x : float) : M float :=
  if is_infinity x then raise ValueError else ret (sin x).

End Model.

Declare Scope py_scope.
Delimit Scope py_scope with py.
Notation "x <- c ;; k" := (bind c (fun x => k))
  (at level 61, c at next level, right associativity) : py_scope.
Notation "c ;;; k" := (bind c (fun _ => k))
  (at level 61, right associativity) : py_scope.

Section Methods.

Context {NP : NumPy} {LM : LibM}.

Local Open Scope py_scope.

(** ** [CartPoleEnv.seed] *)
Definition seed (seed : option Z) (entropy : Z) : M (list Z) :=
  match seeding_np_random seed entropy with
  | inl e => raise e
  | inr (rng, s) =>
      assign (set_np_random rng) ;;;
      ret [s]
  end.

(** ** [CartPoleEnv.step] *)

(** The termination test of [step], on the updated [x] and [theta].
    [a > b] is [b < a]. *)
Definition out_of_bounds (x_threshold theta_threshold_radians x theta : float)
  : bool :=
  (x <? - x_threshold)
  || (x_threshold <? x)
  || (theta <? - theta_threshold_radians)
  || (theta_threshold_radians <? theta).

Definition step (action : Z) : M StepResult :=
  n <- attr action_space ;;
  assert_ (contains n action) ;;;
  state0 <- attr state ;;
  t <- unpack4 state0 ;;
  let '(x, x_dot, theta, theta_dot) := t in
  force_mag <- attr force_mag ;;
  let force := if (action =? 1)%Z then force_mag else - force_mag in
  costheta <- math_cos theta ;;
  sintheta <- math_sin theta ;;
  polemass_length <- attr polemass_length ;;
  frictioncart <- attr frictioncart ;;
  frictioncart_eps <- attr frictioncart_eps ;;
  g1 <- np_random_randn ;;
  total_mass <- attr total_mass ;;
  let temp :=
    (force + polemass_length * theta_dot * theta_dot * sintheta
     - frictioncart * (4 + frictioncart_eps * g1) * np_sign x_dot)
    / total_mass in
  gravity <- attr gravity ;;
  gravity_eps <- attr gravity_eps ;;
  g2 <- np_random_randn ;;
  frictionpole <- attr frictionpole ;;
  frictionpole_eps <- attr frictionpole_eps ;;
  g3 <- np_random_randn ;;
  length <- attr length ;;
  masspole <- attr masspole ;;
  let thetaacc :=
    (gravity * (4 + gravity_eps * g2) * sintheta - costheta * temp
     - frictionpole * (4 + frictionpole_eps * g3) * theta_dot
       / polemass_length)
    / (length * (4.0 / 3.0 - masspole * costheta * costheta / total_mass)) in
  let xacc := temp - polemass_length * thetaacc * costheta / total_mass in
  noise <- self_np_random_uniform (-0.30) 0.30 ;;
  tau <- attr tau ;;
  let x := x + tau * x_dot in
  let x_dot := x_dot + tau * xacc in
  let theta := (theta + tau * theta_dot) * (1 + noise) in
  let theta_dot := theta_dot + tau * thetaacc in
  assign (set_state (Some (x, x_dot, theta, theta_dot))) ;;;
  x_threshold <- attr x_threshold ;;
  theta_threshold_radians <- attr theta_threshold_radians ;;
  let done := out_of_bounds x_threshold theta_threshold_radians x theta in
  reward <-
    (if negb done then ret 1.0
     else
       sbd <- attr steps_beyond_done ;;
       match sbd with
       | None =>
           assign (set_steps_beyond_done (Some 0%Z)) ;;;
           ret 1.0
       | Some k =>
           (if (k =? 0)%Z then logger_warning else ret tt) ;;;
           assign (set_steps_beyond_done (Some (k + 1)%Z)) ;;;
           ret 0.0
       end) ;;
  state1 <- attr state ;;
  ret {| observation := np_array state1; reward := reward; done := done;
         info := [] |}.

(** ** [CartPoleEnv.reset]

    [uniform(low, high, size=(4,))] fills the array with four successive
    draws of the generator. *)
Definition reset : M ndarray :=
  a <- self_np_random_uniform (-0.05) 0.05 ;;
  b <- self_np_random_uniform (-0.05) 0.05 ;;
  c <- self_np_random_uniform (-0.05) 0.05 ;;
  d <- self_np_random_uniform (-0.05) 0.05 ;;
  assign (set_state (Some (a, b, c, d))) ;;;
  assign (set_steps_beyond_done None) ;;;
  state1 <- attr state ;;
  ret (np_array state1).

(** ** Drivers *)

(** One [step] call as the caller sees it: the world before, what the call
    returned or raised, the world after. *)
Record Transition : Type := {
  before : World;
  outcome : Exn + StepResult;
  after : World
}.

(** A caller's sequence of [step] calls with no [reset] in between; an
    exception is caught and the caller goes on. *)
Fixpoint step_trace (actions : list Z) (w : World) : list Transition :=
  match actions with
  | [] => []
  | a :: rest =>
      let '(r, w') := step a w in
      {| before := w; outcome := r; after := w' |} :: step_trace rest w'
  end.

(** No call has reported [done] over the first [k] entries of a trace. *)
Definition undone_before (tr : list Transition) (k : nat) : Prop :=
  forall i t r, i < k -> nth_error tr i = Some t -> outcome t = inr r ->
                done r = false.

Inductive Call : Type :=
| CallSeed (seed : option Z) (entropy : Z)
| CallStep (action : Z)
| CallReset.

Definition call (c : Call) (w : World) : World :=
  match c with
  | CallSeed s entropy => snd (seed s entropy w)
  | CallStep a => snd (step a w)
  | CallReset => snd (reset w)
  end.

Definition calls (cs : list Call) (w : World) : World :=
  fold_left (fun w c => call c w) cs w.

Definition is_reset (c : Call) : bool :=
  match c with
  | CallReset => true
  | _ => false
  end.

(** A fresh process: the instance as constructed, and the state [g] of
    numpy's global generator. *)
Definition fresh (case entropy : Z) (g : RandomState) : World :=
  {| self := init case entropy; np_random_global := g; warnings := 0 |}.

(** The worlds a program can be in: construction, then any calls. *)
Definition reachable (w : World) : Prop :=
  exists case entropy g cs, w = calls cs (fresh case entropy g).

(** A caller's run of one episode: seed the instance with [v], reset,
    then step through [actions]. What the caller observes is the first
    observation and what each [step] returned or raised. *)
Definition seeded_run (v : Z) (actions : list Z) (w : World)
  : (Exn + ndarray) * list (Exn + StepResult) :=
  let w1 := snd (seed (Some v) 0%Z w) in
  let '(obs, w2) := reset w1 in
  (obs, map outcome (step_trace actions w2)).

(** The stored simulation parameters of an instance. *)
Definition parameters (e : CartPoleEnv) : list float :=
  [gravity e; masscart e; masspole e; total_mass e; length e;
   polemass_length e; force_mag e; tau e; frictioncart e; frictionpole e;
   gravity_eps e; frictioncart_eps e; frictionpole_eps e;
   theta_threshold_radians e; x_threshold e].

(** ** The transition as the specification words it *)

(** A coefficient as it enters the acceleration formulas: quadrupled and
    jittered, [coef * (4 + eps * N(0,1))]. *)
Definition jittered (coef eps g : float) : float := coef * (4 + eps * g).

Definition spec_force (e : CartPoleEnv) (action : Z) : float :=
  if (action =? 1)%Z then force_mag e else - force_mag e.

Definition spec_temp (e : CartPoleEnv) (force x_dot theta theta_dot g1 : float)
  : float :=
  (force + polemass_length e * theta_dot * theta_dot * sin theta
   - jittered (frictioncart e) (frictioncart_eps e) g1 * np_sign x_dot)
  / total_mass e.

Definition spec_thetaacc (e : CartPoleEnv)
  (temp theta theta_dot g2 g3 : float) : float :=
  (jittered (gravity e) (gravity_eps e) g2 * sin theta - cos theta * temp
   - jittered (frictionpole e) (frictionpole_eps e) g3 * theta_dot
     / polemass_length e)
  / (length e
     * (4.0 / 3.0 - masspole e * cos theta * cos theta / total_mass e)).

Definition spec_xacc (e : CartPoleEnv) (temp thetaacc theta : float) : float :=
  temp - polemass_length e * thetaacc * cos theta / total_mass e.

(** Explicit Euler over one slice [tau], the noise on the updated angle. *)
Definition spec_euler (tau : float) (s : float * float * float * float)
  (xacc thetaacc noise : float) : float * float * float * float :=
  let '(x, x_dot, theta, theta_dot) := s in
  (x + tau * x_dot,
   x_dot + tau * xacc,
   (theta + tau * theta_dot) * (1 + noise),
   theta_dot + tau * thetaacc).

(** The draws one [step] consumes: three successive normals of the global
    generator, one uniform of the instance's generator. *)
Record Draws : Type := {
  g1 : float; g2 : float; g3 : float;
  global_after : RandomState;
  noise : float;
  np_random_after : RandomState
}.

Definition step_draws (w : World) : Draws :=
  let d1 := randn (np_random_global w) in
  let d2 := randn (snd d1) in
  let d3 := randn (snd d2) in
  let u := uniform (-0.30) 0.30 (np_random (self w)) in
  {| g1 := fst d1; g2 := fst d2; g3 := fst d3; global_after := snd d3;
     noise := fst u; np_random_after := snd u |}.

Definition spec_post_state (w : World) (action : Z)
  (s : float * float * float * float) : float * float * float * float :=
  let '(x, x_dot, theta, theta_dot) := s in
  let e := self w in
  let d := step_draws w in
  let temp := spec_temp e (spec_force e action) x_dot theta theta_dot (g1 d) in
  let thetaacc := spec_thetaacc e temp theta theta_dot (g2 d) (g3 d) in
  let xacc := spec_xacc e temp thetaacc theta in
  spec_euler (tau e) s xacc thetaacc (noise d).

Definition spec_done (e : CartPoleEnv) (s : float * float * float * float)
  : bool :=
  let '(x, _, theta, _) := s in
  out_of_bounds (x_threshold e) (theta_threshold_radians e) x theta.

(** The reward branch: the reward and the new counter, or the exception
    of the warning that the first over-stepping call tries to log. *)
Definition spec_reward (done : bool) (sbd : option Z)
  : Exn + float * option Z :=
  if done then
    match sbd with
    | None => inr (1.0, Some 0%Z)
    | Some k =>
        if (k =? 0)%Z then inl AttributeError
        else inr (0.0, Some (k + 1)%Z)
    end
  else inr (1.0, sbd).

(** The world once [step] has assigned [self.state]: the new state, the
    instance generator after the noise draw, numpy's global generator
    after the three normals; the counter is still the old one. *)
Definition state_written (action : Z) (w : World)
  (s : float * float * float * float) : World :=
  {| self := set_state (Some (spec_post_state w action s))
               (set_np_random (np_random_after (step_draws w)) (self w));
     np_random_global := global_after (step_draws w);
     warnings := warnings w |}.

Definition spec_step (action : Z) (w : World) : (Exn + StepResult) * World :=
  let e := self w in
  if negb (contains (action_space e) action) then (inl AssertionError, w)
  else
    match state e with
    | None => (inl TypeError, w)
    | Some s =>
        let '(_, _, theta, _) := s in
        if is_infinity theta then (inl ValueError, w)
        else
          let s' := spec_post_state w action s in
          let dn := spec_done e s' in
          let w1 := state_written action w s in
          match spec_reward dn (steps_beyond_done e) with
          | inl x => (inl x, w1)
          | inr (rw, sbd') =>
              (inr {| observation := np_array (Some s'); reward := rw;
                      done := dn; info := [] |},
               {| self := set_steps_beyond_done sbd' (self w1);
                  np_random_global := np_random_global w1;
                  warnings := warnings w1 |})
          end
    end.

(** ** [reset] as the specification words it *)

Definition within (low high v : float) : bool :=
  (low <=? v) && (v <=? high).

(** The generator's contract for the interval [[low, high]]: every draw
    of [uniform low high] lies in it. *)
Definition uniform_in_bounds (low high : float) : Prop :=
  forall s : RandomState, within low high (fst (uniform low high s)) = true.

(** Four successive draws of [uniform low high]. *)
Definition draw4 (low high : float) (s : RandomState)
  : (float * float * float * float) * RandomState :=
  let a := uniform low high s in
  let b := uniform low high (snd a) in
  let c := uniform low high (snd b) in
  let d := uniform low high (snd c) in
  ((fst a, fst b, fst c, fst d), snd d).

End Methods.

(** ** Reference instances of the interfaces

    A deterministic test random source and a polynomial libm, used to run
    the model on concrete inputs. *)

(** Raw samples replayed cyclically: unit-interval samples behind
    [uniform], standard-normal samples behind [randn]. *)
Definition unit_samples : list float :=
  [0.5; 0.75; 0.5; 0.5; 0.5; 0.25; 0.0; 0.875].

Definition normal_samples : list float :=
  [0.0; 1.0; -1.0; 0.5; -0.5; 2.0; -2.0; 0.25].

(** The generator's state is its position in the tables; the seed is the
    start position. [uniform] scales as numpy does:
    [low + (high - low) * random_sample()]. *)
Definition ReplayRandom : NumPy := {|
  RandomState := nat;
  seeded := fun s => Z.to_nat (Z.abs s);
  uniform := fun low high pos =>
    (low + (high - low) * nth (pos mod 8) unit_samples 0.5, S pos);
  randn := fun pos => (nth (pos mod 8) normal_samples 0, S pos)
|}.

(** Taylor polynomials of degree 7 and 6; exact at [0.0], where
    [math.sin] returns [0.0] and [math.cos] returns [1.0]. *)
Definition TaylorLibM : LibM := {|
  cos := fun x =>
    let x2 := x * x in
    1 - x2 / 2 + x2 * x2 / 24 - x2 * x2 * x2 / 720;
  sin := fun x =>
    let x2 := x * x in
    x - x * x2 / 6 + x * x2 * x2 / 120 - x * x2 * x2 * x2 / 5040
|}.

(** ** Concrete worlds over the reference instances *)

(** A process just after [CartPoleEnv()]: the constructor's seed was
    [entropy], numpy's global generator is at position [g]. *)
Definition ref_fresh (entropy : Z) (g : nat) : @World ReplayRandom :=
  @fresh ReplayRandom 1%Z entropy g.

(** The same after [seed(0)] and [reset()]. *)
Definition ref_started : @World ReplayRandom :=
  @calls ReplayRandom TaylorLibM
    [CallSeed (Some 0%Z) 0%Z; CallReset] (ref_fresh 0 0).

(** An instance in mid-episode: upright pole at rest, the cart at [x] and
    moving at [x_dot]. *)
Definition ref_cart_at (x x_dot : float) : @World ReplayRandom :=
  {| self := @set_state ReplayRandom (Some (x, x_dot, 0, 0))
               (@init ReplayRandom 1%Z 0%Z);
     np_random_global := 0%nat;
     warnings := 0 |}.

(** What a call returned, for calls that did return. *)
Definition returned (o : Exn + StepResult) : StepResult :=
  match o with
  | inr r => r
  | inl _ => {| observation := ArrayNone; reward := 0; done := false;
                info := [] |}
  end.

(** Is the cart velocity of the first observation below [probe]? *)
Definition x_dot_below (probe : float) (outs : list (Exn + StepResult))
  : bool :=
  match outs with
  | inr {| observation := Array4 _ x_dot _ _ |} :: _ => x_dot <? probe
  | _ => false
  end.


(** ** The counter on constructed instances *)

Section Counting.

Context {NP : NumPy} {LM : LibM}.

(** The counter is inactive or stands at 0. *)
Definition counter_ok (w : World) : Prop :=
  steps_beyond_done (self w) = None
  \/ steps_beyond_done (self w) = Some 0%Z.

End Counting.

(** ** [CartPoleEnv.render]

    [gym.envs.classic_control.rendering], as far as [render] uses it. The
    geometry [render] builds is data; what a viewer puts on the display
    when asked to draw it is the interface [Rendering]. *)

(** The two [Transform] objects the instance keeps and the geometry
    shares: [self.carttrans] and [self.poletrans]. *)
Inductive TransformRef : Type :=
| CartTrans
| PoleTrans.

Inductive Shape : Type :=
| FilledPolygon (vertices : list (float * float))
| Circle (radius : float)
| Line (start stop : float * float).

(** A [Geom]: its shape, its colour ([set_color], black when never set)
    and the transforms added with [add_attr], in the order added. *)
Record Geom : Type := {
  shape : Shape;
  color : float * float * float;
  attrs : list TransformRef
}.

(** A [Transform]: [translation] and [rotation]; [Transform()] has
    translation (0, 0) and rotation 0. *)
Record Transform : Type := {
  translation : float * float;
  rotation : float
}.

(** A [Viewer]: the window size and the geometry added with [add_geom],
    oldest first. *)
Record Viewer : Type := {
  viewer_width : Z;
  viewer_height : Z;
  geoms : list Geom
}.

(** [viewer.render(return_rgb_array)]: what is returned for a viewer whose
    geometry is drawn under the current cart and pole transforms. *)
Class Rendering : Type := {
  Frame : Type;
  viewer_render : Viewer -> Transform -> Transform -> bool -> Frame
}.

(** The attributes [render] adds to the instance. [None] is: not set (for
    [viewer], also: set to [None]). *)
Record Screen : Type := {
  viewer : option Viewer;
  carttrans : option Transform;
  poletrans : option Transform;
  axle : option Geom;
  track : option Geom
}.

Definition no_screen : Screen :=
  {| viewer := None; carttrans := None; poletrans := None;
     axle := None; track := None |}.

(** The block under [if self.viewer is None], given the locals [render]
    has set before it ([screen_width] is 600 and [screen_height] 400): a
    new viewer, the two transforms, and the cart, the pole, the axle and
    the track added in this order. *)
Definition build_scene (carty polewidth polelen cartwidth cartheight : float)
  : Screen :=
  let '(l, r, t, b) :=
    (- cartwidth / 2, cartwidth / 2, cartheight / 2, - cartheight / 2) in
  let axleoffset := cartheight / 4.0 in
  let cart := {| shape := FilledPolygon [(l, b); (l, t); (r, t); (r, b)];
                 color := (0, 0, 0); attrs := [CartTrans] |} in
  let '(l, r, t, b) :=
    (- polewidth / 2, polewidth / 2, polelen - polewidth / 2,
     - polewidth / 2) in
  let pole := {| shape := FilledPolygon [(l, b); (l, t); (r, t); (r, b)];
                 color := (0.8, 0.6, 0.4);
                 attrs := [PoleTrans; CartTrans] |} in
  let axle := {| shape := Circle (polewidth / 2);
                 color := (0.5, 0.5, 0.8);
                 attrs := [PoleTrans; CartTrans] |} in
  let track := {| shape := Line (0, carty) (600, carty);
                  color := (0, 0, 0); attrs := [] |} in
  {| viewer := Some {| viewer_width := 600; viewer_height := 400;
                       geoms := [cart; pole; axle; track] |};
     carttrans := Some {| translation := (0, 0); rotation := 0 |};
     poletrans := Some {| translation := (0, axleoffset); rotation := 0 |};
     axle := Some axle;
     track := Some track |}.

(** The scene of an instance whose [x_threshold] is 2.4. *)
Definition reference_scene : Screen :=
  build_scene 100 10.0 (600 / (2.4 * 2) * 1.0) 50.0 30.0.

(** A screen is in order when it has no viewer, or has the viewer of the
    reference scene, a cart transform that was never rotated and a pole
    transform still at the axle offset. *)
Definition screen_ok (sc : Screen) : Prop :=
  viewer sc = None
  \/ (viewer sc = viewer reference_scene
      /\ (exists tr, carttrans sc
                     = Some {| translation := tr; rotation := 0 |})
      /\ (exists rot, poletrans sc
                      = Some {| translation := (0, 30.0 / 4.0);
                                rotation := rot |})).

Section Render.

Context {NP : NumPy} {RD : Rendering}.

(** The instance with the attributes [render] adds. *)
Record Stage : Type := {
  world : World;
  screen : Screen
}.

(** [CartPoleEnv.render(mode, close)] *)
Definition render (mode : string) (close : bool) (s : Stage)
  : (Exn + option Frame) * Stage :=
  let e := self (world s) in
  let sc := screen s in
  if close then
    match viewer sc with
    | Some _ =>
        (inr None,
         {| world := world s;
            screen := {| viewer := None; carttrans := carttrans sc;
                         poletrans := poletrans sc; axle := axle sc;
                         track := track sc |} |})
    | None => (inr None, s)
    end
  else
    let world_width := x_threshold e * 2 in
    let scale := 600 / world_width in
    let carty := 100 in
    let polewidth := 10.0 in
    let polelen := scale * 1.0 in
    let cartwidth := 50.0 in
    let cartheight := 30.0 in
    let sc :=
      match viewer sc with
      | None =>
          build_scene carty polewidth polelen cartwidth cartheight
      | Some _ => sc
      end in
    match state e with
    | None => (inr None, {| world := world s; screen := sc |})
    | Some (x0, _, x2, _) =>
        let cartx := x0 * scale + 600 / 2.0 in
        match carttrans sc with
        | None => (inl AttributeError, {| world := world s; screen := sc |})
        | Some ct =>
            let ct := {| translation := (cartx, carty);
                         rotation := rotation ct |} in
            let sc := {| viewer := viewer sc; carttrans := Some ct;
                         poletrans := poletrans sc; axle := axle sc;
                         track := track sc |} in
            match poletrans sc with
            | None =>
                (inl AttributeError, {| world := world s; screen := sc |})
            | Some pt =>
                let pt := {| translation := translation pt;
                             rotation := - x2 |} in
                let sc := {| viewer := viewer sc; carttrans := carttrans sc;
                             poletrans := Some pt; axle := axle sc;
                             track := track sc |} in
                match viewer sc with
                | None =>
                    (inl AttributeError,
                     {| world := world s; screen := sc |})
                | Some v =>
                    (inr (Some (viewer_render v ct pt
                                  (String.eqb mode "rgb_array"))),
                     {| world := world s; screen := sc |})
                end
            end
        end
    end.

End Render.

Section Program.

Context {NP : NumPy} {LM : LibM} {RD : Rendering}.

(** A program over the whole interface. *)
Inductive StageCall : Type :=
| DoRender (mode : string) (close : bool)
| DoCall (c : Call).

Definition stage_call (c : StageCall) (s : Stage) : Stage :=
  match c with
  | DoRender mode close => snd (render mode close s)
  | DoCall c => {| world := call c (world s); screen := screen s |}
  end.

Definition stage_calls (cs : list StageCall) (s : Stage) : Stage :=
  fold_left (fun s c => stage_call c s) cs s.

(** The instance as constructed: nothing rendered yet. *)
Definition fresh_stage (case entropy : Z) (g : RandomState) : Stage :=
  {| world := fresh case entropy g; screen := no_screen |}.

(** The simulation calls of a program, in order. *)
Definition simulation_calls (cs : list StageCall) : list Call :=
  flat_map (fun c => match c with DoCall c => [c] | DoRender _ _ => [] end)
    cs.

End Program.

(** ** More concrete worlds over the reference instances *)

(** [ref_started] in a process whose global generator is elsewhere. *)
Definition ref_started_elsewhere : @World ReplayRandom :=
  {| self := self ref_started; np_random_global := 5%nat; warnings := 0 |}.

(** [ref_started] after nine [step(1)] calls, the ninth of which reports
    done. *)
Definition ref_done : @World ReplayRandom :=
  @calls ReplayRandom TaylorLibM
    ([CallSeed (Some 0%Z) 0%Z; CallReset] ++ repeat (CallStep 1%Z) 9)
    (ref_fresh 0 0).

(** The same after a tenth [step(1)], which oversteps. *)
Definition ref_overstepped : @World ReplayRandom :=
  @calls ReplayRandom TaylorLibM
    ([CallSeed (Some 0%Z) 0%Z; CallReset] ++ repeat (CallStep 1%Z) 10)
    (ref_fresh 0 0).

(** An episode under way, two [step(1)] calls after [seed(0)] and
    [reset()], in a process whose global generator started at position
    3: the cart moves, the pole leans and turns. *)
Definition ref_moving : @World ReplayRandom :=
  @calls ReplayRandom TaylorLibM
    [CallSeed (Some 0%Z) 0%Z; CallReset; CallStep 1%Z; CallStep 1%Z]
    (ref_fresh 0 3).

(** An instance in mid-episode whose state is [s]. *)
Definition ref_in_state (s : float * float * float * float)
  : @World ReplayRandom :=
  {| self := @set_state ReplayRandom (Some s) (@init ReplayRandom 1%Z 0%Z);
     np_random_global := 0%nat;
     warnings := 0 |}.


(** * Properties *)

Section Properties.

Context {NP : NumPy} {LM : LibM}.

(** ** [step] computes the specified transition *)

Ltac unfold_py :=
  cbv beta iota zeta delta
    [bind ret raise attr assign assert_ unpack4 math_cos math_sin
     np_random_randn self_np_random_uniform logger_warning].

Lemma step_refines_spec (action : Z) (w : World) :
  step action w = spec_step action w.
Proof.
  unfold step, spec_step, logger_warning.
  unfold_py.
  destruct (contains (action_space (self w)) action); unfold_py;
    [|reflexivity].
  destruct (state (self w)) as [[[[x x_dot] theta] theta_dot]|];
    unfold_py; [|reflexivity].
  destruct (is_infinity theta); unfold_py; [reflexivity|].
  unfold state_written, spec_post_state, spec_done, spec_euler, spec_reward,
    step_draws, spec_temp, spec_thetaacc, spec_xacc, spec_force, jittered.
  destruct (randn (np_random_global w)) as [n1 r1]; cbn.
  destruct (randn r1) as [n2 r2]; cbn.
  destruct (randn r2) as [n3 r3]; cbn.
  destruct (uniform (-0.30) 0.30 (np_random (self w))) as [u ru]; cbn.
  match goal with
  | |- context [negb ?b] => destruct b; cbn; [|reflexivity]
  end.
  destruct (steps_beyond_done (self w)) as [k|]; cbn; [|reflexivity].
  destruct (k =? 0)%Z; reflexivity.
Qed.

(** ** What a raising [step] left behind *)

(** The three checks of [step] raise before anything is read or written.
    The warning of the first over-stepping call raises after the state
    was assigned and the four draws were made; its counter is 0 and
    stays 0. *)
Lemma step_error_cases (action : Z) (w w' : World) (e : Exn) :
  step action w = (inl e, w') ->
  (e <> AttributeError /\ w' = w)
  \/ (e = AttributeError
      /\ contains (action_space (self w)) action = true
      /\ steps_beyond_done (self w) = Some 0%Z
      /\ exists s,
           state (self w) = Some s
           /\ is_infinity (snd (fst s)) = false
           /\ spec_done (self w) (spec_post_state w action s) = true
           /\ w' = state_written action w s).
Proof.
  rewrite step_refines_spec. unfold spec_step.
  destruct (contains (action_space (self w)) action); cbn [negb].
  2: { intros H; injection H as <- <-. left. split; [discriminate|reflexivity]. }
  destruct (state (self w)) as [[[[x x_dot] theta] theta_dot]|].
  2: { intros H; injection H as <- <-. left. split; [discriminate|reflexivity]. }
  destruct (is_infinity theta) eqn:Hi.
  { intros H; injection H as <- <-. left. split; [discriminate|reflexivity]. }
  unfold spec_reward.
  destruct (spec_done _ _) eqn:Hd; [|discriminate].
  destruct (steps_beyond_done (self w)) as [k|]; [|discriminate].
  destruct (Z.eqb_spec k 0) as [->|Hk]; [|discriminate].
  intros H; injection H as <- <-. right.
  split; [reflexivity|]. split; [reflexivity|]. split; [reflexivity|].
  exists (x, x_dot, theta, theta_dot). cbn [fst snd].
  repeat split; assumption.
Qed.

Lemma step_error_counter (action : Z) (w w' : World) (e : Exn) :
  step action w = (inl e, w') ->
  steps_beyond_done (self w') = steps_beyond_done (self w)
  /\ warnings w' = warnings w.
Proof.
  intros H.
  destruct (step_error_cases _ _ _ _ H)
    as [[_ ->] | (_ & _ & _ & s & _ & _ & _ & ->)]; split; reflexivity.
Qed.

(** ** [reset] in closed form *)

Lemma reset_eq (w : World) :
  reset w =
  let '(s, r) := draw4 (-0.05) 0.05 (np_random (self w)) in
  (inr (np_array (Some s)),
   {| self := set_steps_beyond_done None
                (set_state (Some s) (set_np_random r (self w)));
      np_random_global := np_random_global w;
      warnings := warnings w |}).
Proof.
  unfold reset, draw4. unfold_py.
  destruct (uniform (-0.05) 0.05 (np_random (self w))) as [a ra]; cbn.
  destruct (uniform (-0.05) 0.05 ra) as [b rb]; cbn.
  destruct (uniform (-0.05) 0.05 rb) as [c rc]; cbn.
  destruct (uniform (-0.05) 0.05 rc) as [d rd]; cbn.
  reflexivity.
Qed.

(** ** The stored parameters *)

Lemma step_parameters (action : Z) (w : World) :
  parameters (self (snd (step action w))) = parameters (self w)
  /\ action_space (self (snd (step action w))) = action_space (self w).
Proof.
  rewrite step_refines_spec. unfold spec_step.
  destruct (negb (contains (action_space (self w)) action)); [now split|].
  destruct (state (self w)) as [[[[x x_dot] theta] theta_dot]|];
    [|now split].
  destruct (is_infinity theta); [now split|].
  destruct (spec_reward _ _) as [x0|[rw sbd']]; split; reflexivity.
Qed.

Lemma call_parameters (c : Call) (w : World) :
  parameters (self (call c w)) = parameters (self w)
  /\ action_space (self (call c w)) = action_space (self w).
Proof.
  destruct c as [s entropy|a|]; cbn [call].
  - unfold seed. destruct (seeding_np_random s entropy) as [e|[rng s0]];
      split; reflexivity.
  - apply step_parameters.
  - rewrite reset_eq.
    destruct (draw4 _ _ _) as [s r]. split; reflexivity.
Qed.

Lemma calls_parameters (cs : list Call) (w : World) :
  parameters (self (calls cs w)) = parameters (self w)
  /\ action_space (self (calls cs w)) = action_space (self w).
Proof.
  revert w. induction cs as [|c cs IH]; intros w; [now split|].
  change (calls (c :: cs) w) with (calls cs (call c w)).
  destruct (IH (call c w)) as [Hp Ha].
  destruct (call_parameters c w) as [Hp' Ha'].
  split; congruence.
Qed.

(** The constants a constructed instance carries for its whole life. *)
Lemma reachable_constants (w : World) :
  reachable w ->
  tau (self w) = 0.02
  /\ x_threshold (self w) = 2.4
  /\ theta_threshold_radians (self w) = 24 * math_pi / 360
  /\ frictioncart_eps (self w) = 0.99
  /\ gravity_eps (self w) = 0.99
  /\ frictionpole_eps (self w) = 0.99
  /\ action_space (self w) = 2%Z.
Proof.
  intros (case & entropy & g & cs & ->).
  destruct (calls_parameters cs (fresh case entropy g)) as [Hp Ha].
  rewrite Ha. clear Ha.
  unfold parameters in Hp.
  injection Hp as _ _ _ _ _ _ _ Htau _ _ Hge Hce Hpe Hth Hx.
  rewrite Htau, Hge, Hce, Hpe, Hth, Hx.
  unfold fresh; cbn [self]. unfold init. cbn [seeding_np_random create_seed].
  destruct (uniform (-0.30) 0.30 _) as [u r].
  cbn. repeat split; reflexivity.
Qed.

Lemma valid_action_contained (w : World) (action : Z) :
  reachable w -> action = 0%Z \/ action = 1%Z ->
  contains (action_space (self w)) action = true.
Proof.
  intros Hr Ha.
  destruct (reachable_constants w Hr) as (_ & _ & _ & _ & _ & _ & ->).
  destruct Ha as [-> | ->]; reflexivity.
Qed.

(** A [step] that passes its three checks assigns the specified state
    and makes the four draws, whether it then returns or raises on the
    warning. *)
Lemma step_writes_state (w : World) (action : Z)
  (s : float * float * float * float) :
  contains (action_space (self w)) action = true ->
  state (self w) = Some s ->
  is_infinity (snd (fst s)) = false ->
  state (self (snd (step action w))) = Some (spec_post_state w action s)
  /\ np_random (self (snd (step action w))) = np_random_after (step_draws w)
  /\ np_random_global (snd (step action w)) = global_after (step_draws w).
Proof.
  intros Hc Hs Hi.
  rewrite step_refines_spec. unfold spec_step.
  rewrite Hc, Hs. cbn [negb].
  destruct s as [[[x x_dot] theta] theta_dot]. cbn [fst snd] in Hi.
  rewrite Hi.
  destruct (spec_reward _ _) as [x0|[rw sbd']]; repeat split; reflexivity.
Qed.

(** It raises exactly when the new state is out of bounds and the counter
    stands at 0; otherwise it returns the new state and the flag of the
    termination test. *)
Lemma step_valid (w : World) (action : Z) (s : float * float * float * float) :
  contains (action_space (self w)) action = true ->
  state (self w) = Some s ->
  is_infinity (snd (fst s)) = false ->
  (fst (step action w) = inl AttributeError
   /\ spec_done (self w) (spec_post_state w action s) = true
   /\ steps_beyond_done (self w) = Some 0%Z)
  \/ (exists res,
        fst (step action w) = inr res
        /\ observation res = np_array (Some (spec_post_state w action s))
        /\ done res = spec_done (self w) (spec_post_state w action s)
        /\ (done res = true -> steps_beyond_done (self w) <> Some 0%Z)).
Proof.
  intros Hc Hs Hi.
  rewrite step_refines_spec. unfold spec_step.
  rewrite Hc, Hs. cbn [negb].
  destruct s as [[[x x_dot] theta] theta_dot]. cbn [fst snd] in Hi.
  rewrite Hi. unfold spec_reward.
  destruct (spec_done _ _) eqn:Hd.
  - destruct (steps_beyond_done (self w)) as [k|].
    + destruct (Z.eqb_spec k 0) as [->|Hk].
      * left. repeat split.
      * right. eexists. cbn. repeat split; try reflexivity.
        intros _ H. injection H as H. contradiction.
    + right. eexists. cbn. repeat split; try reflexivity. discriminate.
  - right. eexists. cbn. repeat split; try reflexivity. discriminate.
Qed.

(** With the counter inactive, or the new state inside the bounds, it
    returns. *)
Lemma step_returns (w : World) (action : Z)
  (s : float * float * float * float) :
  contains (action_space (self w)) action = true ->
  state (self w) = Some s ->
  is_infinity (snd (fst s)) = false ->
  steps_beyond_done (self w) <> Some 0%Z
  \/ spec_done (self w) (spec_post_state w action s) = false ->
  exists res w', step action w = (inr res, w').
Proof.
  intros Hc Hs Hi Hn.
  destruct (step_valid w action s Hc Hs Hi)
    as [(_ & Hd & Hk) | (res & Hres & _)].
  - destruct Hn as [Hn | Hn]; congruence.
  - exists res, (snd (step action w)).
    destruct (step action w) as [o w']. cbn in *. congruence.
Qed.

(** C4. An action outside {0, 1} makes [step] raise [AssertionError], and
    the whole world (episode state, [steps_beyond_done], every parameter,
    both generators) is as it was before the call. *)
Theorem invalid_action_atomic (w : World) (action : Z) :
  reachable w -> action <> 0%Z -> action <> 1%Z ->
  step action w = (inl AssertionError, w).
Proof.
  intros Hr H0 H1.
  destruct (reachable_constants w Hr) as (_ & _ & _ & _ & _ & _ & Hn).
  rewrite step_refines_spec. unfold spec_step. rewrite Hn.
  replace (contains 2 action) with false; [reflexivity|].
  unfold contains. symmetry.
  destruct (Z.leb_spec 0 action); [|reflexivity].
  destruct (Z.ltb_spec action 2); [lia|reflexivity].
Qed.

(** [seed] writes the instance generator, when it writes at all. *)
Lemma seed_keeps (v : option Z) (entropy : Z) (w : World) :
  state (self (snd (seed v entropy w))) = state (self w)
  /\ steps_beyond_done (self (snd (seed v entropy w)))
     = steps_beyond_done (self w)
  /\ np_random_global (snd (seed v entropy w)) = np_random_global w
  /\ warnings (snd (seed v entropy w)) = warnings w.
Proof.
  unfold seed. destruct (seeding_np_random v entropy) as [e|[rng s0]];
    repeat split; reflexivity.
Qed.

Lemma no_reset_state_none (cs : list Call) (w : World) :
  existsb is_reset cs = false ->
  state (self w) = None ->
  state (self (calls cs w)) = None.
Proof.
  revert w. induction cs as [|c cs IH]; intros w Hcs Hw; [exact Hw|].
  change (calls (c :: cs) w) with (calls cs (call c w)).
  cbn [existsb] in Hcs. apply orb_false_iff in Hcs as [Hc Hcs'].
  apply IH; [exact Hcs'|].
  destruct c as [s entropy|a|]; cbn [call]; [| |discriminate].
  - destruct (seed_keeps s entropy w) as (-> & _). exact Hw.
  - rewrite step_refines_spec. unfold spec_step.
    destruct (negb _); [exact Hw|].
    rewrite Hw. exact Hw.
Qed.

(** C5. On an instance on which [reset] was never called the state is
    still [None], and [step] with a valid action raises (a [TypeError],
    from unpacking [None]) before it reads or writes anything else. *)
Theorem step_before_reset_fails (case entropy : Z) (g : RandomState)
  (cs : list Call) (action : Z) :
  existsb is_reset cs = false ->
  action = 0%Z \/ action = 1%Z ->
  state (self (calls cs (fresh case entropy g))) = None
  /\ step action (calls cs (fresh case entropy g))
     = (inl TypeError, calls cs (fresh case entropy g)).
Proof.
  intros Hcs Ha.
  assert (Hs : state (self (calls cs (fresh case entropy g))) = None).
  { apply no_reset_state_none; [exact Hcs|].
    unfold fresh; cbn [self]. unfold init.
    destruct (uniform (-0.30) 0.30 _) as [u r]. reflexivity. }
  split; [exact Hs|].
  rewrite step_refines_spec. unfold spec_step.
  rewrite valid_action_contained; [|now exists case, entropy, g, cs|exact Ha].
  cbn [negb]. rewrite Hs. reflexivity.
Qed.

(** C6. [reset] always returns: its observation is the new state, whose
    four components are four successive [uniform(-0.05, 0.05)] draws of
    the instance's generator, each in [[-0.05, 0.05]] when the generator
    keeps to its interval; [steps_beyond_done] is [None] afterwards. *)
Theorem reset_postcondition (w : World) :
  uniform_in_bounds (-0.05) 0.05 ->
  exists a b c d w',
    reset w = (inr (Array4 a b c d), w')
    /\ draw4 (-0.05) 0.05 (np_random (self w))
       = ((a, b, c, d), np_random (self w'))
    /\ state (self w') = Some (a, b, c, d)
    /\ steps_beyond_done (self w') = None
    /\ within (-0.05) 0.05 a = true
    /\ within (-0.05) 0.05 b = true
    /\ within (-0.05) 0.05 c = true
    /\ within (-0.05) 0.05 d = true.
Proof.
  intros Hu. rewrite reset_eq. unfold draw4.
  do 5 eexists. split; [reflexivity|].
  cbn. repeat split; apply Hu.
Qed.

(** One parameter of the instance after a [step] call. *)
Lemma step_keeps_tau (action : Z) (w : World) :
  tau (self (snd (step action w))) = tau (self w).
Proof.
  pose proof (step_parameters action w) as [Hp _].
  unfold parameters in Hp.
  injection Hp as _ _ _ _ _ _ _ Ht _ _ _ _ _ _ _. exact Ht.
Qed.

(** C7. Every [step] call with a valid action, a state and a finite angle
    assigns as post-state the explicit Euler update over [tau = 0.02]:
    [x] advances by the old [x_dot], the velocities by the accelerations,
    and the angle is the updated angle times [1 + noise], [noise] being
    one [uniform(-0.30, 0.30)] draw of the instance's generator;
    [theta_dot] carries no noise. The call returns that state as its
    observation, unless the state is out of bounds while the counter
    stands at 0: then the state is assigned all the same and the call
    raises on the warning. *)
Theorem euler_integration (w : World) (action : Z)
  (x x_dot theta theta_dot : float) :
  reachable w ->
  action = 0%Z \/ action = 1%Z ->
  state (self w) = Some (x, x_dot, theta, theta_dot) ->
  is_infinity theta = false ->
  let e := self w in
  let d := step_draws w in
  let noise := fst (uniform (-0.30) 0.30 (np_random e)) in
  let temp := spec_temp e (spec_force e action) x_dot theta theta_dot (g1 d) in
  let thetaacc := spec_thetaacc e temp theta theta_dot (g2 d) (g3 d) in
  let xacc := spec_xacc e temp thetaacc theta in
  let w' := snd (step action w) in
  tau (self w') = 0.02
  /\ state (self w')
     = Some (x + 0.02 * x_dot,
             x_dot + 0.02 * xacc,
             (theta + 0.02 * theta_dot) * (1 + noise),
             theta_dot + 0.02 * thetaacc)
  /\ np_random (self w') = snd (uniform (-0.30) 0.30 (np_random e))
  /\ ((exists res,
         fst (step action w) = inr res
         /\ observation res
            = Array4 (x + 0.02 * x_dot) (x_dot + 0.02 * xacc)
                ((theta + 0.02 * theta_dot) * (1 + noise))
                (theta_dot + 0.02 * thetaacc))
      \/ (fst (step action w) = inl AttributeError
          /\ steps_beyond_done e = Some 0%Z)).
Proof.
  intros Hr Ha Hs Hi. cbv zeta.
  destruct (reachable_constants w Hr) as (Htau & _).
  pose proof (valid_action_contained w action Hr Ha) as Hc.
  destruct (step_writes_state w action _ Hc Hs Hi) as (Hst & Hnp & _).
  rewrite step_keeps_tau, Hst, Hnp.
  unfold spec_post_state, spec_euler. rewrite Htau.
  split; [reflexivity|]. split; [reflexivity|]. split; [reflexivity|].
  destruct (step_valid w action _ Hc Hs Hi)
    as [(He & _ & Hk) | (res & Hres & Hobs & _)].
  - right. split; assumption.
  - left. exists res. split; [exact Hres|]. rewrite Hobs.
    unfold spec_post_state, spec_euler. rewrite Htau. reflexivity.
Qed.

(** C8. In every [step] call with a valid action, a state and a finite
    angle, the cart friction, the gravity and the pole friction enter the
    acceleration formulas as [coef * (4 + 0.99 * g)], each with its own
    draw: [g1], [g2], [g3] are three successive [randn] draws of numpy's
    global generator, in this order, and the velocities the call assigns
    are integrated from these accelerations. *)
Theorem coefficient_jitter (w : World) (action : Z)
  (x x_dot theta theta_dot : float) :
  reachable w ->
  action = 0%Z \/ action = 1%Z ->
  state (self w) = Some (x, x_dot, theta, theta_dot) ->
  is_infinity theta = false ->
  let e := self w in
  let '(g1, r1) := randn (np_random_global w) in
  let '(g2, r2) := randn r1 in
  let '(g3, r3) := randn r2 in
  let force := if (action =? 1)%Z then force_mag e else - force_mag e in
  let cart_friction := frictioncart e * (4 + 0.99 * g1) in
  let grav := gravity e * (4 + 0.99 * g2) in
  let pole_friction := frictionpole e * (4 + 0.99 * g3) in
  let temp :=
    (force + polemass_length e * theta_dot * theta_dot * sin theta
     - cart_friction * np_sign x_dot) / total_mass e in
  let thetaacc :=
    (grav * sin theta - cos theta * temp
     - pole_friction * theta_dot / polemass_length e)
    / (length e
       * (4.0 / 3.0 - masspole e * cos theta * cos theta / total_mass e)) in
  let xacc := temp - polemass_length e * thetaacc * cos theta / total_mass e in
  frictioncart_eps e = 0.99 /\ gravity_eps e = 0.99
  /\ frictionpole_eps e = 0.99
  /\ exists x' theta',
       state (self (snd (step action w)))
       = Some (x', x_dot + tau e * xacc, theta', theta_dot + tau e * thetaacc)
       /\ np_random_global (snd (step action w)) = r3.
Proof.
  intros Hr Ha Hs Hi. cbv zeta.
  destruct (reachable_constants w Hr) as (_ & _ & _ & Hce & Hge & Hpe & _).
  destruct (step_writes_state w action _
              (valid_action_contained w action Hr Ha) Hs Hi)
    as (Hst & _ & Hg).
  revert Hst Hg.
  unfold spec_post_state, spec_euler, spec_temp, spec_thetaacc, spec_xacc,
    spec_force, jittered, step_draws.
  rewrite Hce, Hge, Hpe.
  cbv zeta. cbn [g1 g2 g3 global_after noise].
  destruct (randn (np_random_global w)) as [n1 r1]; cbn [fst snd].
  destruct (randn r1) as [n2 r2]; cbn [fst snd].
  destruct (randn r2) as [n3 r3]; cbn [fst snd].
  intros Hst Hg.
  repeat split.
  do 2 eexists. split; [exact Hst|exact Hg].
Qed.

(** C9. No sequence of [seed], [step] and [reset] calls changes a stored
    simulation parameter. *)
Theorem parameters_immutable (cs : list Call) (w : World) :
  parameters (self (calls cs w)) = parameters (self w).
Proof.
  apply calls_parameters.
Qed.

(** ** What a returning [step] did *)

Lemma step_success_inv (action : Z) (w w' : World) (res : StepResult) :
  step action w = (inr res, w') ->
  exists s,
    state (self w) = Some s
    /\ state (self w') = Some (spec_post_state w action s)
    /\ done res = spec_done (self w) (spec_post_state w action s)
    /\ spec_reward (done res) (steps_beyond_done (self w))
       = inr (reward res, steps_beyond_done (self w')).
Proof.
  rewrite step_refines_spec. unfold spec_step.
  destruct (negb (contains (action_space (self w)) action));
    [discriminate|].
  destruct (state (self w)) as [s|]; [|discriminate].
  destruct s as [[[x x_dot] theta] theta_dot].
  destruct (is_infinity theta); [discriminate|].
  destruct (spec_reward _ (steps_beyond_done (self w)))
    as [x0|[rw sbd']] eqn:Hrw; [discriminate|].
  intros H. injection H as <- <-.
  exists (x, x_dot, theta, theta_dot). cbn.
  repeat split. exact Hrw.
Qed.

(** The reward branch of [step], one returning call at a time. *)
Lemma step_reward_law (action : Z) (w w' : World) (res : StepResult) :
  step action w = (inr res, w') ->
  (done res = false ->
     reward res = 1.0
     /\ steps_beyond_done (self w') = steps_beyond_done (self w))
  /\ (done res = true ->
      match steps_beyond_done (self w) with
      | None => reward res = 1.0 /\ steps_beyond_done (self w') = Some 0%Z
      | Some n =>
          n <> 0%Z
          /\ reward res = 0.0
          /\ steps_beyond_done (self w') = Some (n + 1)%Z
      end).
Proof.
  intros H. destruct (step_success_inv _ _ _ _ H) as (s & _ & _ & _ & Hr).
  unfold spec_reward in Hr.
  split; intros Hd; rewrite Hd in Hr.
  - injection Hr as <- <-. split; reflexivity.
  - destruct (steps_beyond_done (self w)) as [n|].
    + destruct (n =? 0)%Z eqn:E; [discriminate|].
      apply Z.eqb_neq in E.
      injection Hr as <- <-. split; [exact E|]. split; reflexivity.
    + injection Hr as <- <-. split; reflexivity.
Qed.

Lemma step_counter_monotone (action : Z) (w : World) (n : Z) :
  steps_beyond_done (self w) = Some n ->
  exists m, steps_beyond_done (self (snd (step action w))) = Some m
            /\ (n <= m <= n + 1)%Z.
Proof.
  intros Hn.
  destruct (step action w) as [[e|res] w'] eqn:Hstep; cbn [snd].
  - destruct (step_error_counter _ _ _ _ Hstep) as [-> _].
    exists n. split; [exact Hn|lia].
  - destruct (step_reward_law _ _ _ _ Hstep) as [Hf Ht].
    destruct (done res).
    + specialize (Ht eq_refl). rewrite Hn in Ht. destruct Ht as (_ & _ & ->).
      exists (n + 1)%Z. split; [reflexivity|lia].
    + destruct (Hf eq_refl) as [_ ->]. exists n. split; [exact Hn|lia].
Qed.

(** ** Traces of [step] calls *)

Lemma trace_entry (actions : list Z) (w : World) (j : nat) (t : Transition) :
  nth_error (step_trace actions w) j = Some t ->
  exists a, nth_error actions j = Some a
            /\ step a (before t) = (outcome t, after t).
Proof.
  revert w j. induction actions as [|a rest IH]; intros w j H.
  - destruct j; discriminate.
  - cbn [step_trace] in H. destruct (step a w) as [r w1] eqn:Hstep.
    destruct j as [|j]; cbn [nth_error] in *.
    + injection H as <-. exists a. split; [reflexivity|exact Hstep].
    + apply (IH w1 j H).
Qed.

Lemma trace_head (actions : list Z) (w : World) (t : Transition) :
  nth_error (step_trace actions w) 0 = Some t -> before t = w.
Proof.
  destruct actions as [|a rest]; [discriminate|].
  cbn [step_trace]. destruct (step a w) as [r w1].
  cbn. intros H. injection H as <-. reflexivity.
Qed.

Lemma trace_chain (actions : list Z) (w : World) (j : nat)
  (t t' : Transition) :
  nth_error (step_trace actions w) j = Some t ->
  nth_error (step_trace actions w) (S j) = Some t' ->
  before t' = after t.
Proof.
  revert w j. induction actions as [|a rest IH]; intros w j H H'.
  - destruct j; discriminate.
  - cbn [step_trace] in H, H'. destruct (step a w) as [r w1].
    destruct j as [|j]; cbn [nth_error] in H, H'.
    + injection H as <-. cbn [after]. eapply trace_head. exact H'.
    + eapply IH; eassumption.
Qed.

Lemma nth_error_pred {A} (l : list A) (j : nat) (x : A) :
  nth_error l (S j) = Some x -> exists y, nth_error l j = Some y.
Proof.
  intros H.
  destruct (nth_error l j) as [y|] eqn:Hj; [now exists y|].
  apply nth_error_None in Hj.
  assert (Hn : nth_error l (S j) <> None) by congruence.
  apply nth_error_Some in Hn. lia.
Qed.

Lemma transition_counter_monotone (actions : list Z) (w : World) (j : nat)
  (t : Transition) (n : Z) :
  nth_error (step_trace actions w) j = Some t ->
  steps_beyond_done (self (before t)) = Some n ->
  exists m, steps_beyond_done (self (after t)) = Some m /\ (n <= m <= n + 1)%Z.
Proof.
  intros Ht Hn.
  destruct (trace_entry _ _ _ _ Ht) as (a & _ & Hstep).
  destruct (step_counter_monotone a (before t) n Hn) as (m & Hm & Hle).
  rewrite Hstep in Hm. now exists m.
Qed.

Lemma trace_counter_monotone (actions : list Z) (w : World) (i j : nat)
  (ti tj : Transition) (n : Z) :
  i <= j ->
  nth_error (step_trace actions w) i = Some ti ->
  nth_error (step_trace actions w) j = Some tj ->
  steps_beyond_done (self (before ti)) = Some n ->
  exists m, steps_beyond_done (self (after tj)) = Some m /\ (n <= m)%Z.
Proof.
  intros Hij Hi. revert tj. induction j as [|j IH]; intros tj Hj Hn.
  - assert (i = 0%nat) by lia. subst i.
    assert (ti = tj) by congruence. subst tj.
    destruct (transition_counter_monotone _ _ _ _ _ Hi Hn) as (m & Hm & Hle).
    exists m. split; [exact Hm|lia].
  - destruct (Nat.eq_dec i (S j)) as [->|Hne].
    + assert (ti = tj) by congruence. subst tj.
      destruct (transition_counter_monotone _ _ _ _ _ Hi Hn)
        as (m & Hm & Hle).
      exists m. split; [exact Hm|lia].
    + destruct (nth_error_pred _ _ _ Hj) as (tp & Hp).
      destruct (IH ltac:(lia) tp Hp Hn) as (m & Hm & Hle).
      rewrite <- (trace_chain _ _ _ _ _ Hp Hj) in Hm.
      destruct (transition_counter_monotone _ _ _ _ _ Hj Hm)
        as (m' & Hm' & Hle').
      exists m'. split; [exact Hm'|lia].
Qed.

Lemma counter_inactive_until_done (actions : list Z) (w : World) (j : nat)
  (t : Transition) :
  steps_beyond_done (self w) = None ->
  undone_before (step_trace actions w) j ->
  nth_error (step_trace actions w) j = Some t ->
  steps_beyond_done (self (before t)) = None.
Proof.
  intros Hw. revert t. induction j as [|j IH]; intros t Hu Ht.
  - rewrite (trace_head _ _ _ Ht). exact Hw.
  - destruct (nth_error_pred _ _ _ Ht) as (tp & Hp).
    rewrite (trace_chain _ _ _ _ _ Hp Ht).
    assert (Hb : steps_beyond_done (self (before tp)) = None).
    { apply IH; [|exact Hp]. intros i ti r Hi. apply Hu. lia. }
    destruct (trace_entry _ _ _ _ Hp) as (a & _ & Hstep).
    destruct (outcome tp) as [e|r] eqn:Ho.
    + destruct (step_error_counter _ _ _ _ Hstep) as [-> _]. exact Hb.
    + destruct (step_reward_law _ _ _ _ Hstep) as [Hf _].
      destruct (Hf (Hu j tp r ltac:(lia) Hp Ho)) as [_ ->]. exact Hb.
Qed.

(** C10. Along any sequence of [step] calls with no [reset] in between,
    a counter that is an integer before call [i] is an integer no smaller
    after every call [j >= i]; [reset] is what puts [None] back. *)
Theorem steps_beyond_done_monotone (actions : list Z) (w : World)
  (i j : nat) (ti tj : Transition) (n : Z) :
  i <= j ->
  nth_error (step_trace actions w) i = Some ti ->
  nth_error (step_trace actions w) j = Some tj ->
  steps_beyond_done (self (before ti)) = Some n ->
  (exists m, steps_beyond_done (self (after tj)) = Some m /\ (n <= m)%Z)
  /\ steps_beyond_done (self (snd (reset (after tj)))) = None.
Proof.
  intros Hij Hi Hj Hn. split.
  - eapply trace_counter_monotone; eassumption.
  - rewrite reset_eq. destruct (draw4 _ _ _) as [s r]. reflexivity.
Qed.

Lemma counter_active_after (actions : list Z) (w : World) (k : nat)
  (tk : Transition) (n0 : Z) :
  nth_error (step_trace actions w) k = Some tk ->
  steps_beyond_done (self (after tk)) = Some n0 ->
  forall j tj, k < j -> nth_error (step_trace actions w) j = Some tj ->
    exists n, steps_beyond_done (self (before tj)) = Some n.
Proof.
  intros Hk H0. induction j as [|j IH]; intros tj Hkj Hj; [lia|].
  destruct (nth_error_pred _ _ _ Hj) as (tp & Hp).
  rewrite (trace_chain _ _ _ _ _ Hp Hj).
  destruct (Nat.eq_dec j k) as [->|Hne].
  - assert (tp = tk) by congruence. subst tp. now exists n0.
  - destruct (IH tp ltac:(lia) Hp) as (n & Hn).
    destruct (transition_counter_monotone _ _ _ _ _ Hp Hn) as (m & Hm & _).
    now exists m.
Qed.

(** C2, as the code has it by design. From an instance whose counter is
    inactive, the call at which [done] first becomes true returns reward
    1.0 and sets [steps_beyond_done] to 0. [done] is recomputed on every
    later call from that call's own post-state, and a later call that
    reports not done returns reward 1.0 and leaves the counter, an
    integer by then, as it is. *)
Theorem reward_law_after_done (actions : list Z) (w : World) (k : nat)
  (tk : Transition) (rk : StepResult) :
  steps_beyond_done (self w) = None ->
  undone_before (step_trace actions w) k ->
  nth_error (step_trace actions w) k = Some tk ->
  outcome tk = inr rk ->
  done rk = true ->
  reward rk = 1.0
  /\ steps_beyond_done (self (after tk)) = Some 0%Z
  /\ forall j tj rj,
       k < j ->
       nth_error (step_trace actions w) j = Some tj ->
       outcome tj = inr rj ->
       done rj = false ->
       exists n,
         steps_beyond_done (self (before tj)) = Some n
         /\ reward rj = 1.0
         /\ steps_beyond_done (self (after tj)) = Some n.
Proof.
  intros Hw Hu Hk Ho Hd.
  pose proof (counter_inactive_until_done _ _ _ _ Hw Hu Hk) as Hb.
  destruct (trace_entry _ _ _ _ Hk) as (a & _ & Hstep). rewrite Ho in Hstep.
  destruct (step_reward_law _ _ _ _ Hstep) as [_ Ht].
  specialize (Ht Hd). rewrite Hb in Ht. destruct Ht as [Hrk Hak].
  split; [exact Hrk|]. split; [exact Hak|].
  intros j tj rj Hkj Hj Hoj Hdj.
  destruct (counter_active_after _ _ _ _ _ Hk Hak j tj Hkj Hj) as (n & Hn).
  exists n. split; [exact Hn|].
  destruct (trace_entry _ _ _ _ Hj) as (aj & _ & Hsj). rewrite Hoj in Hsj.
  destruct (step_reward_law _ _ _ _ Hsj) as [Hf _].
  destruct (Hf Hdj) as [Hr Hs]. split; [exact Hr|]. now rewrite Hs.
Qed.

(** ** Order on binary64 *)

Lemma SFcompare_antisym (a b : SpecFloat.spec_float) :
  SpecFloat.SFcompare b a
  = match SpecFloat.SFcompare a b with
    | Some c => Some (CompOpp c)
    | None => None
    end.
Proof.
  destruct a as [sa|sa| |sa ma ea], b as [sb|sb| |sb mb eb]; cbn;
    try reflexivity;
    try (destruct sa; reflexivity);
    try (destruct sb; reflexivity);
    try (destruct sa, sb; reflexivity).
  destruct sa, sb; cbn; try reflexivity;
    rewrite (Z.compare_antisym ea eb);
    destruct (ea ?= eb)%Z; cbn; try reflexivity.
  all: pose proof (Pos.compare_cont_antisym ma mb Eq) as H; cbn in H;
    change (PosDef.Pos.compare_cont Eq ma mb)
      with (Pos.compare_cont Eq ma mb);
    rewrite H; reflexivity.
Qed.

Lemma leb_not_ltb (a b : float) : (a <=? b) = true -> (b <? a) = false.
Proof.
  rewrite leb_spec, ltb_spec. unfold SpecFloat.SFleb, SpecFloat.SFltb.
  rewrite (SFcompare_antisym (Prim2SF a) (Prim2SF b)).
  destruct (SpecFloat.SFcompare (Prim2SF a) (Prim2SF b)) as [[| |]|];
    cbn; congruence.
Qed.

(** The flag a returning [step] call carries is the strict test on the
    post-update [x] and [theta] against 2.4 and 24*pi/360. A coordinate
    exactly on a bound, either sign, does not terminate when the other
    coordinate is within its closed bounds; any value strictly beyond a
    bound, and so the next float past it, gives [done = true]. *)
Lemma returned_flag_is_strict_test (w w' : World) (action : Z) (res : StepResult)
  (x x_dot theta theta_dot : float) :
  reachable w ->
  step action w = (inr res, w') ->
  state (self w') = Some (x, x_dot, theta, theta_dot) ->
  let xt := 2.4 in
  let tt := 24 * math_pi / 360 in
  x_threshold (self w') = xt
  /\ theta_threshold_radians (self w') = tt
  /\ done res = out_of_bounds xt tt x theta
  /\ (x = xt \/ x = - xt -> within (- tt) tt theta = true ->
      done res = false)
  /\ (theta = tt \/ theta = - tt -> within (- xt) xt x = true ->
      done res = false)
  /\ ((xt <? x) = true \/ (x <? - xt) = true
      \/ (tt <? theta) = true \/ (theta <? - tt) = true ->
      done res = true)
  /\ (x = next_up xt \/ x = next_down (- xt)
      \/ theta = next_up tt \/ theta = next_down (- tt) ->
      done res = true).
Proof.
  intros Hr Hstep Hst xt tt.
  destruct (reachable_constants w Hr) as (_ & Hx & Ht & _).
  destruct (step_success_inv _ _ _ _ Hstep) as (s & _ & Hs' & Hd & _).
  rewrite Hst in Hs'. injection Hs' as Hs'.
  rewrite <- Hs' in Hd. cbn [spec_done] in Hd. rewrite Hx, Ht in Hd.
  fold xt tt in Hd.
  assert (Hp : x_threshold (self w') = xt /\ theta_threshold_radians (self w') = tt).
  { pose proof (step_parameters action w) as [Hp _].
    rewrite Hstep in Hp. cbn [snd] in Hp. unfold parameters in Hp.
    injection Hp as _ _ _ _ _ _ _ _ _ _ _ _ _ Hth Hxt.
    rewrite Hth, Hxt. split; assumption. }
  destruct Hp as [Hx' Ht'].
  split; [exact Hx'|]. split; [exact Ht'|]. split; [exact Hd|].
  rewrite Hd. unfold out_of_bounds, within.
  repeat split.
  - intros Hxb Hw. apply andb_prop in Hw as [Hlo Hhi].
    rewrite (leb_not_ltb _ _ Hlo), (leb_not_ltb _ _ Hhi).
    destruct Hxb as [-> | ->]; reflexivity.
  - intros Htb Hw. apply andb_prop in Hw as [Hlo Hhi].
    rewrite (leb_not_ltb _ _ Hlo), (leb_not_ltb _ _ Hhi).
    destruct Htb as [-> | ->]; reflexivity.
  - intros [H | [H | [H | H]]]; rewrite H;
      repeat rewrite orb_true_r; reflexivity.
  - intros [-> | [-> | [-> | ->]]];
      match goal with
      | |- ?a || ?b || ?c || ?d = true =>
          first [ assert (E : a = true) by reflexivity
                | assert (E : b = true) by reflexivity
                | assert (E : c = true) by reflexivity
                | assert (E : d = true) by reflexivity ];
          rewrite E; repeat rewrite orb_true_r; reflexivity
      end.
Qed.

(** * Further properties of [step], [reset], [seed] and the constructor *)

(** What a returning [step] did to the generators and to the log. *)
Lemma step_success_effects (action : Z) (w w' : World) (res : StepResult) :
  step action w = (inr res, w') ->
  np_random (self w') = np_random_after (step_draws w)
  /\ np_random_global w' = global_after (step_draws w)
  /\ warnings w' = warnings w
  /\ observation res = np_array (state (self w'))
  /\ info res = [].
Proof.
  rewrite step_refines_spec. unfold spec_step.
  destruct (negb (contains (action_space (self w)) action));
    [discriminate|].
  destruct (state (self w)) as [[[[x x_dot] theta] theta_dot]|];
    [|discriminate].
  destruct (is_infinity theta); [discriminate|].
  destruct (spec_reward _ _) as [x0|[rw sbd']]; [discriminate|].
  intros H; injection H as <- <-; cbn; repeat split; reflexivity.
Qed.

(** ** Which exception, and when *)

(** X1. On a constructed instance [step] raises in exactly four cases,
    tested in this order. An action outside {0, 1} ([AssertionError]), no
    state yet ([TypeError]) and an infinite angle ([ValueError]) are
    refused with the world as before the call: no draw is consumed,
    nothing is written. The fourth comes last: when the new state is out
    of bounds and the counter stands at 0, the warning raises
    [AttributeError] after the new state was assigned and the four draws
    were made, with the counter still 0. In every other case the call
    returns. *)
Theorem step_outcome_cases (w : World) (action : Z) :
  reachable w ->
  match step action w with
  | (inl e, w') =>
      e = (if negb ((action =? 0)%Z || (action =? 1)%Z) then AssertionError
           else match state (self w) with
                | None => TypeError
                | Some (_, _, theta, _) =>
                    if is_infinity theta then ValueError
                    else AttributeError
                end)
      /\ (e <> AttributeError -> w' = w)
      /\ (e = AttributeError ->
          steps_beyond_done (self w) = Some 0%Z
          /\ exists s,
               state (self w) = Some s
               /\ spec_done (self w) (spec_post_state w action s) = true
               /\ w' = state_written action w s)
  | (inr res, _) =>
      (action = 0%Z \/ action = 1%Z)
      /\ (exists x x_dot theta theta_dot,
            state (self w) = Some (x, x_dot, theta, theta_dot)
            /\ is_infinity theta = false)
      /\ (done res = true -> steps_beyond_done (self w) <> Some 0%Z)
  end.
Proof.
  intros Hr.
  destruct (reachable_constants w Hr) as (_ & _ & _ & _ & _ & _ & Hn).
  assert (Hc : contains (action_space (self w)) action
               = (action =? 0)%Z || (action =? 1)%Z).
  { rewrite Hn. unfold contains.
    destruct (Z.eqb_spec action 0) as [->|H0]; [reflexivity|].
    destruct (Z.eqb_spec action 1) as [->|H1]; [reflexivity|].
    cbn [orb].
    destruct (Z.leb_spec 0 action); [|reflexivity].
    destruct (Z.ltb_spec action 2); [lia|reflexivity]. }
  rewrite step_refines_spec. unfold spec_step. rewrite Hc.
  destruct ((action =? 0)%Z || (action =? 1)%Z) eqn:Ha; cbn [negb].
  2: { split; [reflexivity|]. split; [reflexivity|discriminate]. }
  assert (Hv : action = 0%Z \/ action = 1%Z).
  { apply orb_prop in Ha as [H|H]; apply Z.eqb_eq in H; auto. }
  destruct (state (self w)) as [[[[x x_dot] theta] theta_dot]|].
  2: { split; [reflexivity|]. split; [reflexivity|discriminate]. }
  destruct (is_infinity theta) eqn:Hi.
  { split; [reflexivity|]. split; [reflexivity|discriminate]. }
  unfold spec_reward.
  destruct (spec_done _ _) eqn:Hd.
  - destruct (steps_beyond_done (self w)) as [k|].
    + destruct (k =? 0)%Z eqn:Hk.
      * apply Z.eqb_eq in Hk. subst k.
        split; [reflexivity|].
        split; [intros H; exfalso; apply H; reflexivity|].
        intros _. split; [reflexivity|].
        exists (x, x_dot, theta, theta_dot). repeat split. exact Hd.
      * apply Z.eqb_neq in Hk. cbn [done].
        split; [exact Hv|]. split; [now exists x, x_dot, theta, theta_dot|].
        intros _ H. injection H as H. contradiction.
    + split; [exact Hv|]. split; [now exists x, x_dot, theta, theta_dot|].
      discriminate.
  - cbn [done].
    split; [exact Hv|]. split; [now exists x, x_dot, theta, theta_dot|].
    discriminate.
Qed.

(** ** What the action and the global draws cannot change *)

(** X2. The positions of a step are integrated from the old velocities, so
    the action and the three draws of numpy's global generator show only
    in the new velocities. Two calls on the same instance, whatever their
    actions and whatever the global generator holds, return the same [x],
    the same [theta], the same [done] flag and reward, and leave the same
    counter and the same instance generator. *)
Theorem action_shows_one_step_late (w1 w2 w1' w2' : World) (a1 a2 : Z)
  (r1 r2 : StepResult) :
  self w1 = self w2 ->
  step a1 w1 = (inr r1, w1') ->
  step a2 w2 = (inr r2, w2') ->
  done r1 = done r2
  /\ reward r1 = reward r2
  /\ steps_beyond_done (self w1') = steps_beyond_done (self w2')
  /\ np_random (self w1') = np_random (self w2')
  /\ exists x theta v1 o1 v2 o2,
       state (self w1') = Some (x, v1, theta, o1)
       /\ state (self w2') = Some (x, v2, theta, o2).
Proof.
  intros Hs H1 H2.
  destruct (step_success_inv _ _ _ _ H1) as (s1 & Hs1 & Hp1 & Hd1 & Hr1).
  destruct (step_success_inv _ _ _ _ H2) as (s2 & Hs2 & Hp2 & Hd2 & Hr2).
  rewrite Hs in Hs1. rewrite Hs1 in Hs2. injection Hs2 as <-.
  destruct s1 as [[[x x_dot] theta] theta_dot].
  assert (Hn : np_random (self w1') = np_random (self w2')).
  { destruct (step_success_effects _ _ _ _ H1) as (-> & _).
    destruct (step_success_effects _ _ _ _ H2) as (-> & _).
    cbn [step_draws np_random_after]. rewrite Hs. reflexivity. }
  assert (Hd : done r1 = done r2).
  { rewrite Hd1, Hd2. unfold spec_post_state, spec_euler, spec_done.
    cbn [step_draws noise]. rewrite Hs. reflexivity. }
  rewrite Hd in Hr1. rewrite Hs in Hr1. rewrite Hr1 in Hr2.
  injection Hr2 as Hrw Hsbd.
  split; [exact Hd|]. split; [exact Hrw|]. split; [exact Hsbd|].
  split; [exact Hn|].
  rewrite Hp1, Hp2. unfold spec_post_state, spec_euler.
  cbn [step_draws noise]. rewrite Hs.
  do 6 eexists. split; reflexivity.
Qed.

(** ** The counter and the reward on constructed instances *)

Lemma calls_steps_cons (a : Z) (actions : list Z) (w : World) :
  calls (map CallStep (a :: actions)) w
  = calls (map CallStep actions) (snd (step a w)).
Proof. reflexivity. Qed.

Lemma fresh_fields (case entropy : Z) (g : RandomState) :
  state (self (fresh case entropy g)) = None
  /\ steps_beyond_done (self (fresh case entropy g)) = None
  /\ warnings (fresh case entropy g) = 0%nat.
Proof.
  unfold fresh; cbn [self warnings]. unfold init.
  destruct (uniform (-0.30) 0.30 _) as [u r]. repeat split.
Qed.

Lemma call_counter_ok (c : Call) (w : World) :
  counter_ok w -> counter_ok (call c w).
Proof.
  unfold counter_ok. intros Hw.
  destruct c as [s entropy|a|]; cbn [call].
  - destruct (seed_keeps s entropy w) as (_ & -> & _). exact Hw.
  - destruct (step a w) as [[e|res] w'] eqn:Hstep; cbn [snd].
    + destruct (step_error_counter _ _ _ _ Hstep) as [-> _]. exact Hw.
    + destruct (step_reward_law _ _ _ _ Hstep) as [Hf Ht].
      destruct (done res).
      * specialize (Ht eq_refl).
        destruct Hw as [Hw | Hw]; rewrite Hw in Ht.
        -- destruct Ht as [_ ->]. right. reflexivity.
        -- destruct Ht as (Hne & _). contradiction.
      * destruct (Hf eq_refl) as [_ ->]. exact Hw.
  - rewrite reset_eq. destruct (draw4 _ _ _) as [s r]. left. reflexivity.
Qed.

Lemma calls_counter_ok (cs : list Call) (w : World) :
  counter_ok w -> counter_ok (calls cs w).
Proof.
  revert w. induction cs as [|c cs IH]; intros w Hw; [exact Hw|].
  change (calls (c :: cs) w) with (calls cs (call c w)).
  apply IH. apply call_counter_ok. exact Hw.
Qed.

Lemma reachable_counter_ok (w : World) : reachable w -> counter_ok w.
Proof.
  intros (case & entropy & g & cs & ->).
  apply calls_counter_ok. left. apply fresh_fields.
Qed.

(** X3. On an instance reached from construction every reward [step]
    returns is 1.0. The only branch that assigns 0.0 comes after the
    warning, which raises when the counter is 0, and no call takes the
    counter past 0. *)
Theorem returned_reward_is_one (w w' : World) (action : Z)
  (res : StepResult) :
  reachable w ->
  step action w = (inr res, w') ->
  reward res = 1.0.
Proof.
  intros Hr Hstep.
  pose proof (reachable_counter_ok w Hr) as Hok.
  destruct (step_reward_law _ _ _ _ Hstep) as [Hf Ht].
  destruct (done res).
  - specialize (Ht eq_refl).
    destruct Hok as [Hw | Hw]; rewrite Hw in Ht.
    + apply Ht.
    + destruct Ht as (Hne & _). contradiction.
  - apply Hf. reflexivity.
Qed.

(** X4. On an instance reached from construction by [seed], [step] and
    [reset] calls, [steps_beyond_done] is [None] or 0: it is never
    negative, and the increment of the over-stepping branch is never
    reached. *)
Theorem counter_none_or_zero (w : World) :
  reachable w ->
  steps_beyond_done (self w) = None
  \/ steps_beyond_done (self w) = Some 0%Z.
Proof.
  intros Hr. exact (reachable_counter_ok w Hr).
Qed.

Lemma call_keeps_state (c : Call) (w : World) :
  state (self w) <> None -> state (self (call c w)) <> None.
Proof.
  intros Hw. destruct c as [s entropy|a|]; cbn [call].
  - destruct (seed_keeps s entropy w) as (-> & _). exact Hw.
  - destruct (step a w) as [[e|res] w'] eqn:Hstep; cbn [snd].
    + destruct (step_error_cases _ _ _ _ Hstep)
        as [[_ ->] | (_ & _ & _ & s & _ & _ & _ & ->)];
        [exact Hw|discriminate].
    + destruct (step_success_inv _ _ _ _ Hstep) as (s & _ & -> & _).
      discriminate.
  - rewrite reset_eq. destruct (draw4 _ _ _) as [s r]. discriminate.
Qed.

Lemma calls_keep_state (cs : list Call) (w : World) :
  state (self w) <> None -> state (self (calls cs w)) <> None.
Proof.
  revert w. induction cs as [|c cs IH]; intros w Hw; [exact Hw|].
  change (calls (c :: cs) w) with (calls cs (call c w)).
  apply IH. apply call_keeps_state. exact Hw.
Qed.

(** X6. The state is [None] exactly until the first [reset]: a program
    that never called [reset] has no state, whatever else it called, and
    once [reset] was called the state is set for good, so [step] cannot
    raise [TypeError] any more. *)
Theorem state_set_by_first_reset (case entropy : Z) (g : RandomState)
  (cs : list Call) :
  state (self (calls cs (fresh case entropy g))) = None
  <-> existsb is_reset cs = false.
Proof.
  split.
  - intros Hs. destruct (existsb is_reset cs) eqn:He; [|reflexivity].
    exfalso. revert Hs. generalize (fresh case entropy g).
    induction cs as [|c cs IH]; intros w; [discriminate|].
    change (calls (c :: cs) w) with (calls cs (call c w)).
    cbn [existsb] in He.
    destruct (is_reset c) eqn:Hc.
    + destruct c; try discriminate. apply calls_keep_state.
      cbn [call]. rewrite reset_eq. destruct (draw4 _ _ _) as [s r].
      discriminate.
    + apply IH. exact He.
  - intros He. apply no_reset_state_none; [exact He|].
    apply fresh_fields.
Qed.

(** ** What seeding does and does not reproduce *)

(** [seed] on a seed it accepts, and on one it refuses. *)
Lemma seed_accepted (v entropy : Z) (w : World) :
  (0 <= v)%Z ->
  seed (Some v) entropy w
  = (inr [(v mod 2 ^ 64)%Z],
     {| self := set_np_random (seeded (v mod 2 ^ 64)) (self w);
        np_random_global := np_random_global w;
        warnings := warnings w |}).
Proof.
  intros Hv. unfold seed, seeding_np_random, create_seed.
  destruct (Z.ltb_spec v 0) as [H|_]; [lia|]. reflexivity.
Qed.

Lemma seed_refused (v entropy : Z) (w : World) :
  (v < 0)%Z -> seed (Some v) entropy w = (inl GymError, w).
Proof.
  intros Hv. unfold seed, seeding_np_random.
  destruct (Z.ltb_spec v 0) as [_|H]; [reflexivity|lia].
Qed.

(** X7. [seed(v)] with a seed that is not negative, followed by [reset()],
    gives the same observation, the same state and the same instance
    generator in any two processes, whatever they did before and whatever
    numpy's global generator holds: the start of an episode depends on
    [v] alone, through [v mod 2**64]. *)
Theorem seeded_reset_reproducible (v e1 e2 : Z) (w1 w2 : World) :
  (0 <= v)%Z ->
  let r1 := reset (snd (seed (Some v) e1 w1)) in
  let r2 := reset (snd (seed (Some v) e2 w2)) in
  fst r1 = fst r2
  /\ fst r1
     = inr (np_array
              (Some (fst (draw4 (-0.05) 0.05 (seeded (v mod 2 ^ 64))))))
  /\ state (self (snd r1)) = state (self (snd r2))
  /\ steps_beyond_done (self (snd r1)) = steps_beyond_done (self (snd r2))
  /\ np_random (self (snd r1)) = np_random (self (snd r2)).
Proof.
  intros Hv. cbv zeta. rewrite !reset_eq.
  rewrite !(seed_accepted v _ _ Hv). cbn [snd self np_random set_np_random].
  destruct (draw4 (-0.05) 0.05 (seeded (v mod 2 ^ 64))) as [s r].
  cbn. repeat split; reflexivity.
Qed.

(** X8. [force_mag] is drawn once, in the constructor, from the generator
    the constructor seeded for itself: whatever the program calls later
    ([seed] included), it is [10.0 * (1 + u)] with [u] the first
    [uniform(-0.30, 0.30)] draw of that generator; the derived masses stay
    consistent with the masses and the length. *)
Theorem force_mag_fixed_at_construction (case entropy : Z)
  (g : RandomState) (cs : list Call) :
  let e := self (calls cs (fresh case entropy g)) in
  force_mag e = 10.0 * (1 + fst (uniform (-0.30) 0.30 (seeded entropy)))
  /\ total_mass e = masspole e + masscart e
  /\ polemass_length e = masspole e * length e.
Proof.
  cbv zeta.
  destruct (calls_parameters cs (fresh case entropy g)) as [Hp _].
  unfold parameters in Hp.
  injection Hp as _ Hmc Hmp Htm Hl Hpl Hfm _ _ _ _ _ _ _ _.
  rewrite Hmc, Hmp, Htm, Hl, Hpl, Hfm.
  unfold fresh; cbn [self]. unfold init, seeding_np_random, create_seed.
  destruct (uniform (-0.30) 0.30 (seeded entropy)) as [u r].
  cbn. repeat split; reflexivity.
Qed.

(** ** Infinities and NaNs *)

Lemma is_infinity_spec (v : float) :
  is_infinity v
  = match Prim2SF v with
    | SpecFloat.S754_infinity _ => true
    | _ => false
    end.
Proof.
  unfold is_infinity. rewrite FloatAxioms.eqb_spec, abs_spec.
  change (Prim2SF infinity) with (SpecFloat.S754_infinity false).
  destruct (Prim2SF v) as [s|s| |s m e]; reflexivity.
Qed.

Lemma within_not_infinite (lo hi v : float) :
  is_infinity lo = false -> is_infinity hi = false ->
  within lo hi v = true -> is_infinity v = false.
Proof.
  rewrite !is_infinity_spec. unfold within.
  rewrite !leb_spec. unfold SpecFloat.SFleb.
  intros Hlo Hhi Hw. apply andb_prop in Hw as [H1 H2].
  destruct (Prim2SF v) as [s|s| |s m e]; try reflexivity.
  destruct s.
  - destruct (Prim2SF lo) as [sl|sl| |sl ml el]; cbn in H1, Hlo;
      try discriminate; destruct sl; discriminate.
  - destruct (Prim2SF hi) as [sh|sh| |sh mh eh]; cbn in H2, Hhi;
      try discriminate; destruct sh; discriminate.
Qed.

Lemma reachable_call (c : Call) (w : World) :
  reachable w -> reachable (call c w).
Proof.
  intros (case & entropy & g & cs & ->).
  exists case, entropy, g, (cs ++ [c]).
  unfold calls. rewrite fold_left_app. reflexivity.
Qed.

(** X9. After [reset] the first [step] with a valid action always
    returns, provided the generator keeps [uniform(-0.05, 0.05)] within
    its interval: the state is set and the drawn angle is finite, so none
    of the three exceptions can be raised. *)
Theorem step_after_reset_returns (w : World) (action : Z) :
  uniform_in_bounds (-0.05) 0.05 ->
  reachable w ->
  action = 0%Z \/ action = 1%Z ->
  exists res w', step action (snd (reset w)) = (inr res, w').
Proof.
  intros Hu Hr Ha.
  pose proof (reachable_call CallReset w Hr) as Hr'. cbn [call] in Hr'.
  pose proof (valid_action_contained _ action Hr' Ha) as Hc.
  revert Hc. rewrite reset_eq. unfold draw4.
  set (a := uniform (-0.05) 0.05 (np_random (self w))).
  set (b := uniform (-0.05) 0.05 (snd a)).
  set (c := uniform (-0.05) 0.05 (snd b)).
  set (d := uniform (-0.05) 0.05 (snd c)).
  cbn [snd]. intros Hc.
  apply (step_returns _ action (fst a, fst b, fst c, fst d) Hc eq_refl).
  - cbn [fst snd].
    apply (within_not_infinite (-0.05) 0.05); [reflexivity|reflexivity|].
    apply Hu.
  - left. discriminate.
Qed.

Lemma nan_add_l (y : float) : nan + y = nan.
Proof.
  rewrite <- (SF2Prim_Prim2SF (nan + y)), add_spec.
  change (Prim2SF nan) with SpecFloat.S754_nan. reflexivity.
Qed.

Lemma nan_mul_l (y : float) : nan * y = nan.
Proof.
  rewrite <- (SF2Prim_Prim2SF (nan * y)), mul_spec.
  change (Prim2SF nan) with SpecFloat.S754_nan. reflexivity.
Qed.

Lemma nan_ltb_l (y : float) : (nan <? y) = false.
Proof.
  rewrite ltb_spec.
  change (Prim2SF nan) with SpecFloat.S754_nan. reflexivity.
Qed.

Lemma nan_ltb_r (y : float) : (y <? nan) = false.
Proof.
  rewrite ltb_spec.
  change (Prim2SF nan) with SpecFloat.S754_nan.
  unfold SpecFloat.SFltb. destruct (Prim2SF y); reflexivity.
Qed.

Lemma nan_step (w : World) (action : Z) (x_dot theta_dot : float) :
  action_space (self w) = 2%Z ->
  action = 0%Z \/ action = 1%Z ->
  state (self w) = Some (nan, x_dot, nan, theta_dot) ->
  exists res w' v o,
    step action w = (inr res, w')
    /\ action_space (self w') = 2%Z
    /\ state (self w') = Some (nan, v, nan, o)
    /\ done res = false
    /\ reward res = 1.0.
Proof.
  intros Hn Ha Hs.
  assert (Hc : contains (action_space (self w)) action = true).
  { rewrite Hn. destruct Ha as [-> | ->]; reflexivity. }
  assert (Hnd : spec_done (self w)
                 (spec_post_state w action (nan, x_dot, nan, theta_dot))
               = false).
  { unfold spec_post_state, spec_euler, spec_done.
    rewrite !nan_add_l, !nan_mul_l. unfold out_of_bounds.
    rewrite !nan_ltb_l, !nan_ltb_r. reflexivity. }
  destruct (step_returns w action _ Hc Hs eq_refl (or_intror Hnd))
    as (res & w' & Hstep).
  destruct (step_success_inv _ _ _ _ Hstep) as (s & Hs' & Hst & Hd & _).
  rewrite Hs in Hs'. injection Hs' as <-. rewrite Hnd in Hd.
  revert Hst. unfold spec_post_state, spec_euler.
  rewrite !nan_add_l, !nan_mul_l. intros Hst.
  destruct (step_reward_law _ _ _ _ Hstep) as [Hf _].
  destruct (Hf Hd) as [Hrw _].
  pose proof (step_parameters action w) as [_ Hsp].
  rewrite Hstep in Hsp. cbn [snd] in Hsp.
  exists res, w'. do 2 eexists.
  split; [exact Hstep|]. split; [congruence|].
  split; [exact Hst|]. split; [exact Hd|exact Hrw].
Qed.

(** X10. NaN positions neither heal nor terminate. From a state whose [x]
    and [theta] are both NaN, every [step] call of any sequence of valid
    actions returns, with [done = False] and reward 1.0, and leaves [x]
    and [theta] NaN: all four comparisons of the termination test are
    false on a NaN. *)
Theorem nan_state_never_done (actions : list Z) (w : World)
  (x_dot theta_dot : float) :
  action_space (self w) = 2%Z ->
  Forall (fun a => a = 0%Z \/ a = 1%Z) actions ->
  state (self w) = Some (nan, x_dot, nan, theta_dot) ->
  Forall (fun t =>
            exists res v o,
              outcome t = inr res
              /\ done res = false
              /\ reward res = 1.0
              /\ state (self (after t)) = Some (nan, v, nan, o))
         (step_trace actions w).
Proof.
  intros Hn Hv. revert w x_dot theta_dot Hn.
  induction Hv as [|a rest Ha Hrest IH]; intros w x_dot theta_dot Hn Hs.
  - constructor.
  - cbn [step_trace].
    destruct (nan_step w a x_dot theta_dot Hn Ha Hs)
      as (res & w' & v & o & Hstep & Hn' & Hst & Hd & Hrw).
    rewrite Hstep. constructor.
    + exists res, v, o. cbn [outcome after]. repeat split; assumption.
    + apply (IH w' v o); assumption.
Qed.

(** X15. An infinite angle blocks the episode. Once [theta] is an
    infinity every [step] call raises (the assertion for an invalid
    action, [ValueError] from [math.cos] otherwise) and leaves the world
    as it is, so no sequence of [step] calls makes any progress; only
    [reset] gets the instance out of it. *)
Theorem infinite_angle_blocks_steps (actions : list Z) (w : World)
  (x x_dot theta theta_dot : float) :
  state (self w) = Some (x, x_dot, theta, theta_dot) ->
  is_infinity theta = true ->
  Forall (fun t => (exists e, outcome t = inl e) /\ after t = w)
         (step_trace actions w)
  /\ calls (map CallStep actions) w = w
  /\ exists s, state (self (snd (reset w))) = Some s.
Proof.
  intros Hs Hi.
  assert (H1 : forall a, exists e, step a w = (inl e, w)).
  { intros a. rewrite step_refines_spec. unfold spec_step.
    destruct (negb _); [eexists; reflexivity|].
    rewrite Hs, Hi. eexists; reflexivity. }
  split; [|split].
  - induction actions as [|a rest IH]; [constructor|].
    cbn [step_trace]. destruct (H1 a) as (e & ->).
    constructor; [|exact IH].
    cbn [outcome after]. split; [now exists e|reflexivity].
  - induction actions as [|a rest IH]; [reflexivity|].
    rewrite calls_steps_cons. destruct (H1 a) as (e & ->). exact IH.
  - rewrite reset_eq. destruct (draw4 _ _ _) as [s r]. now exists s.
Qed.

End Properties.

(** * Properties of [render] *)

Section RenderProperties.

Context {NP : NumPy} {LM : LibM} {RD : Rendering}.

Lemma render_keeps_world (mode : string) (close : bool) (s : Stage) :
  world (snd (render mode close s)) = world s.
Proof.
  unfold render. cbv beta zeta. destruct close.
  - destruct (viewer (screen s)); reflexivity.
  - destruct (state (self (world s))) as [[[[x0 x1] x2] x3]|];
      [|reflexivity].
    destruct (viewer (screen s)) as [v|] eqn:E; cbn.
    + destruct (carttrans (screen s)); [|reflexivity]. cbn.
      destruct (poletrans (screen s)); [|reflexivity]. cbn.
      rewrite E. reflexivity.
    + reflexivity.
Qed.

Lemma render_keeps_screen_ok (mode : string) (close : bool) (s : Stage) :
  x_threshold (self (world s)) = 2.4 ->
  screen_ok (screen s) ->
  screen_ok (screen (snd (render mode close s))).
Proof.
  intros Hx Hok. unfold render. cbv beta zeta. rewrite Hx. destruct close.
  - destruct (viewer (screen s)); [left; reflexivity|exact Hok].
  - destruct Hok as [Hv | (Hv & (tr & Hc) & (rot & Hp))].
    + rewrite Hv.
      destruct (state (self (world s))) as [[[[x0 x1] x2] x3]|]; cbn.
      * right. split; [reflexivity|]. split; eexists; reflexivity.
      * right. split; [reflexivity|]. split; eexists; reflexivity.
    + rewrite Hv. cbn [reference_scene build_scene viewer].
      destruct (state (self (world s))) as [[[[x0 x1] x2] x3]|].
      * rewrite Hc; cbn. rewrite Hp; cbn. rewrite Hv; cbn.
        right. split; [reflexivity|]. split; eexists; reflexivity.
      * cbn. right. split; [exact Hv|].
        split; eexists; eassumption.
Qed.

Lemma stage_world (cs : list StageCall) (s : Stage) :
  world (stage_calls cs s) = calls (simulation_calls cs) (world s).
Proof.
  revert s. induction cs as [|c cs IH]; intros s; [reflexivity|].
  change (stage_calls (c :: cs) s) with (stage_calls cs (stage_call c s)).
  rewrite IH. destruct c as [mode close|c]; cbn [stage_call simulation_calls
                                                  flat_map app].
  - rewrite render_keeps_world. reflexivity.
  - reflexivity.
Qed.

Lemma stage_screen_ok (cs : list StageCall) (s : Stage) :
  reachable (world s) ->
  screen_ok (screen s) ->
  screen_ok (screen (stage_calls cs s)).
Proof.
  revert s. induction cs as [|c cs IH]; intros s Hr Hok; [exact Hok|].
  change (stage_calls (c :: cs) s) with (stage_calls cs (stage_call c s)).
  destruct c as [mode close|c]; cbn [stage_call].
  - apply IH.
    + rewrite render_keeps_world. exact Hr.
    + apply render_keeps_screen_ok; [|exact Hok].
      now destruct (reachable_constants _ Hr) as (_ & Hx & _).
  - apply IH; cbn [world screen]; [|exact Hok].
    apply reachable_call. exact Hr.
Qed.

(** X11. Rendering is transparent to the simulation: with [render] calls
    put anywhere in a program (either mode, closing or not), the state,
    the counter, the parameters, both generators and the log are what the
    program's [seed], [step] and [reset] calls alone make them. *)
Theorem render_transparent (case entropy : Z) (g : RandomState)
  (cs : list StageCall) :
  world (stage_calls cs (fresh_stage case entropy g))
  = calls (simulation_calls cs) (fresh case entropy g).
Proof.
  apply stage_world.
Qed.

(** X12. The viewer is built once and then left alone: at any point of any
    program either there is no viewer (never rendered, or closed) or it
    is the 600 x 400 viewer holding exactly the cart, the pole, the axle
    and the track of the first build; rendering again adds no geometry. *)
Theorem viewer_built_once (case entropy : Z) (g : RandomState)
  (cs : list StageCall) :
  let s := stage_calls cs (fresh_stage case entropy g) in
  viewer (screen s) = None \/ viewer (screen s) = viewer reference_scene.
Proof.
  cbv zeta.
  assert (H : screen_ok (screen (stage_calls cs (fresh_stage case entropy g)))).
  { apply stage_screen_ok.
    - exists case, entropy, g, []. reflexivity.
    - left. reflexivity. }
  destruct H as [H | (H & _)]; [left|right]; exact H.
Qed.

(** X13. [render] never raises, and what it returns depends on the present
    only. Closing, or rendering before the first [reset], returns [None].
    Otherwise it returns the frame of the reference viewer drawn with the
    cart at [(x * scale + 300, 100)], never rotated, and the pole at its
    axle offset, rotated by [- theta], for the current [x] and [theta]. *)
Theorem render_result (case entropy : Z) (g : RandomState)
  (cs : list StageCall) (mode : string) (close : bool) :
  let s := stage_calls cs (fresh_stage case entropy g) in
  fst (render mode close s)
  = inr (if close then None
         else match state (self (world s)), viewer reference_scene with
              | Some (x, _, theta, _), Some v =>
                  Some (viewer_render v
                          {| translation := (x * (600 / (2.4 * 2)) + 600 / 2.0,
                                             100);
                             rotation := 0 |}
                          {| translation := (0, 30.0 / 4.0);
                             rotation := - theta |}
                          (String.eqb mode "rgb_array"))
              | _, _ => None
              end).
Proof.
  cbv zeta.
  set (s := stage_calls cs (fresh_stage case entropy g)).
  assert (Hr : reachable (world s)).
  { unfold s. rewrite stage_world.
    exists case, entropy, g, (simulation_calls cs). reflexivity. }
  assert (Hok : screen_ok (screen s)).
  { apply stage_screen_ok.
    - exists case, entropy, g, []. reflexivity.
    - left. reflexivity. }
  destruct (reachable_constants _ Hr) as (_ & Hx & _).
  unfold render. cbv beta zeta. rewrite Hx. destruct close.
  - destruct (viewer (screen s)); reflexivity.
  - destruct (state (self (world s))) as [[[[x0 x1] x2] x3]|];
      [|reflexivity].
    destruct Hok as [Hv | (Hv & (tr & Hc) & (rot & Hp))].
    + rewrite Hv. reflexivity.
    + rewrite Hv. cbn [reference_scene build_scene viewer].
      rewrite Hc; cbn. rewrite Hp; cbn. rewrite Hv; cbn. reflexivity.
Qed.

(** X14. Closing is idempotent and harmless: [render(close=True)] returns
    [None] and leaves no viewer, on an instance that has none it changes
    nothing at all, and the next [render] builds the reference scene
    anew. *)
Theorem close_then_rebuild (case entropy : Z) (g : RandomState)
  (cs : list StageCall) (m1 m2 m3 : string) :
  let s := stage_calls cs (fresh_stage case entropy g) in
  let closed := snd (render m1 true s) in
  viewer (screen closed) = None
  /\ render m2 true closed = (inr None, closed)
  /\ viewer (screen (snd (render m3 false closed))) = viewer reference_scene.
Proof.
  cbv zeta.
  set (s := stage_calls cs (fresh_stage case entropy g)).
  assert (Hr : reachable (world s)).
  { unfold s. rewrite stage_world.
    exists case, entropy, g, (simulation_calls cs). reflexivity. }
  destruct (reachable_constants _ Hr) as (_ & Hx & _).
  assert (Hv : viewer (screen (snd (render m1 true s))) = None).
  { unfold render. destruct (viewer (screen s)) eqn:E; [reflexivity|exact E]. }
  split; [exact Hv|]. split.
  - unfold render at 1. cbv beta zeta. rewrite Hv. reflexivity.
  - unfold render at 1. cbv beta zeta. rewrite Hv.
    rewrite render_keeps_world, Hx.
    destruct (state (self (world s))) as [[[[x0 x1] x2] x3]|]; reflexivity.
Qed.

End RenderProperties.

(** * The model on concrete inputs *)

#[local] Existing Instance ReplayRandom.
#[local] Existing Instance TaylorLibM.

(** [seed] replaces the instance's generator, when it accepts the seed,
    and nothing else: numpy's global generator, from which [step] draws
    its three normals, is as it was. *)
Lemma seed_leaves_global_generator {NP : NumPy} (v : option Z) (entropy : Z)
  (w : World) :
  np_random_global (snd (seed v entropy w)) = np_random_global w.
Proof.
  unfold seed. destruct (seeding_np_random v entropy) as [e|[rng s0]];
    reflexivity.
Qed.

(** C1, on the code. Two processes construct the instance alike, seed it
    with 0, reset and call [step(1)]. They differ only in the state of
    numpy's global generator, which [seed] does not touch: the first
    observations agree, the observations after the step do not. The same
    happens when only the seed chosen inside the constructor differs,
    through [force_mag]. *)
Theorem seeded_runs_diverge :
  seeded_run 0 [1%Z] (ref_fresh 0 0)
  = (inr (Array4 0 0.025000000000000008 0 0),
     [inr {| observation :=
               Array4 0.00050000000000000023 0.20678181818181823 0
                 (-0.27267272727272734);
             reward := 1; done := false; info := [] |}])
  /\ seeded_run 0 [1%Z] (ref_fresh 0 1)
     = (inr (Array4 0 0.025000000000000008 0 0),
        [inr {| observation :=
                  Array4 0.00050000000000000023 0.20677281818181825 0
                    (-0.27265922727272734);
                reward := 1; done := false; info := [] |}])
  /\ seeded_run 0 [1%Z] (ref_fresh 1 0)
     = (inr (Array4 0 0.025000000000000008 0 0),
        [inr {| observation :=
                  Array4 0.00050000000000000023 0.23405454545454546 0
                    (-0.31358181818181824);
                reward := 1; done := false; info := [] |}])
  /\ snd (seeded_run 0 [1%Z] (ref_fresh 0 0))
     <> snd (seeded_run 0 [1%Z] (ref_fresh 0 1))
  /\ snd (seeded_run 0 [1%Z] (ref_fresh 0 0))
     <> snd (seeded_run 0 [1%Z] (ref_fresh 1 0)).
Proof.
  split; [vm_compute; reflexivity|].
  split; [vm_compute; reflexivity|].
  split; [vm_compute; reflexivity|].
  split; intros H.
  - apply (f_equal (x_dot_below 0.2067805)) in H.
    vm_compute in H. discriminate H.
  - apply (f_equal (x_dot_below 0.22)) in H.
    vm_compute in H. discriminate H.
Qed.

(** C2 as stated fails. The cart sits on the right bound moving outwards at
    0.001; the pole is upright and at rest, so [math.cos] and [math.sin]
    are taken at 0.0 in both calls. [step(0)] carries the cart past 2.4:
    done, reward 1.0, counter 0. The push to the left reverses the
    velocity, the next [step(0)] brings the cart back inside: not done,
    reward 1.0 and not 0.0, counter still 0 and not 1. *)
Lemma reward_law_counterexample :
  exists t1 t2 r1 r2,
    step_trace [0%Z; 0%Z] (ref_cart_at 2.4 0.001) = [t1; t2]
    /\ steps_beyond_done (self (before t1)) = None
    /\ outcome t1 = inr r1
    /\ done r1 = true
    /\ reward r1 = 1.0
    /\ steps_beyond_done (self (before t2)) = Some 0%Z
    /\ outcome t2 = inr r2
    /\ done r2 = false
    /\ reward r2 <> 0.0
    /\ steps_beyond_done (self (after t2)) <> Some (0 + 1)%Z.
Proof.
  do 4 eexists. split; [lazy; reflexivity|].
  cbn [before after outcome self steps_beyond_done reward done].
  repeat split; try reflexivity.
  - intros H. apply (f_equal (fun v : float => v <? 0.5)) in H.
    vm_compute in H. discriminate H.
  - discriminate.
Qed.

(** The trace of that run, in full. *)
Example edge_run_trace :
  map (fun t => (observation (returned (outcome t)),
                 reward (returned (outcome t)),
                 done (returned (outcome t)),
                 steps_beyond_done (self (after t))))
      (step_trace [0%Z; 0%Z] (ref_cart_at 2.4 0.001))
  = [(Array4 2.40002 (-0.18085454545454546) 0 0.27278181818181824,
      1.0, true, Some 0%Z);
     (Array4 2.3964029090909089 (-0.36263177465989427)
        0.0054556363636363648 0.54544717261925968,
      1.0, false, Some 0%Z)].
Proof. vm_compute. reflexivity. Qed.

(** The amended law at that run: the call that reports done is call 0,
    the two calls after it report not done. *)
Lemma reward_law_after_done_witness :
  let tk := {| before := ref_cart_at 2.4 0.001;
               outcome := fst (step 0 (ref_cart_at 2.4 0.001));
               after := snd (step 0 (ref_cart_at 2.4 0.001)) |} in
  let rk := returned (outcome tk) in
  reward rk = 1.0
  /\ steps_beyond_done (self (after tk)) = Some 0%Z
  /\ forall j tj rj,
       0 < j ->
       nth_error (step_trace [0%Z; 0%Z; 0%Z] (ref_cart_at 2.4 0.001)) j
       = Some tj ->
       outcome tj = inr rj ->
       done rj = false ->
       exists n,
         steps_beyond_done (self (before tj)) = Some n
         /\ reward rj = 1.0
         /\ steps_beyond_done (self (after tj)) = Some n.
Proof.
  intros tk rk.
  assert (Hw : steps_beyond_done (self (ref_cart_at 2.4 0.001)) = None)
    by reflexivity.
  assert (Hu : undone_before
                 (step_trace [0%Z; 0%Z; 0%Z] (ref_cart_at 2.4 0.001)) 0)
    by (intros i t r Hi; lia).
  assert (Hk : nth_error (step_trace [0%Z; 0%Z; 0%Z] (ref_cart_at 2.4 0.001))
                 0 = Some tk)
    by (vm_compute; reflexivity).
  assert (Ho : outcome tk = inr rk) by (vm_compute; reflexivity).
  assert (Hd : done rk = true) by (vm_compute; reflexivity).
  exact (reward_law_after_done [0%Z; 0%Z; 0%Z] (ref_cart_at 2.4 0.001)
           0 tk rk Hw Hu Hk Ho Hd).
Defined.

(** That run, a call longer: done, then twice not done with reward 1.0
    and the counter left at 0. *)
Example edge_run_continued :
  map (fun t => (done (returned (outcome t)), reward (returned (outcome t)),
                 steps_beyond_done (self (after t))))
      (step_trace [0%Z; 0%Z; 0%Z] (ref_cart_at 2.4 0.001))
  = [(true, 1.0, Some 0%Z); (false, 1.0, Some 0%Z); (false, 1.0, Some 0%Z)].
Proof. vm_compute. reflexivity. Qed.

(** A cart exactly on the bound is not done; one float past it is. *)
Example on_bound_not_done :
  let r := returned (fst (step 1 (ref_cart_at 2.4 0))) in
  observation r = Array4 2.4 0.18181818181818185 0 (-0.27272727272727276)
  /\ done r = false.
Proof. vm_compute. split; reflexivity. Qed.

Example one_ulp_past_bound_done :
  let r := returned (fst (step 1 (ref_cart_at (next_up 2.4) 0))) in
  observation r
  = Array4 2.4000000000000004 0.18181818181818185 0 (-0.27272727272727276)
  /\ done r = true.
Proof. vm_compute. split; reflexivity. Qed.

Lemma ref_started_reachable : reachable ref_started.
Proof. exists 1%Z, 0%Z, 0%nat, [CallSeed (Some 0%Z) 0%Z; CallReset]. reflexivity. Qed.

Lemma ref_done_reachable : reachable ref_done.
Proof.
  exists 1%Z, 0%Z, 0%nat,
    ([CallSeed (Some 0%Z) 0%Z; CallReset] ++ repeat (CallStep 1%Z) 9).
  reflexivity.
Qed.


(** The same from a cart that has left the track: the first call yields
    done, each later one raises while the cart is out. *)
Example overstepping_raises :
  map (fun t => (match outcome t with
                 | inr r => inr (done r, reward r)
                 | inl e => inl e
                 end,
                 option_map (fun s => fst (fst (fst s)))
                   (state (self (after t))),
                 steps_beyond_done (self (after t))))
      (step_trace [1%Z; 1%Z; 1%Z] (ref_cart_at 2.4 1))
  = [(inr (true, 1.0), Some 2.4199999999999999, Some 0%Z);
     (inl AttributeError, Some 2.4436356363636365, Some 0%Z);
     (inl AttributeError, Some 2.4709068173120916, Some 0%Z)].
Proof. vm_compute. reflexivity. Qed.

Lemma invalid_action_atomic_witness :
  step 2 ref_started = (inl AssertionError, ref_started).
Proof.
  apply (invalid_action_atomic ref_started 2).
  - exact ref_started_reachable.
  - lia.
  - lia.
Defined.

Lemma step_before_reset_fails_witness :
  let cs := [CallSeed (Some 0%Z) 0%Z; CallStep 2%Z; CallStep 1%Z] in
  state (self (calls cs (ref_fresh 0 0))) = None
  /\ step 1 (calls cs (ref_fresh 0 0))
     = (inl TypeError, calls cs (ref_fresh 0 0)).
Proof.
  intros cs.
  apply (@step_before_reset_fails ReplayRandom TaylorLibM 1 0 0%nat cs 1).
  - reflexivity.
  - right. reflexivity.
Defined.

(** The replayed generator keeps to [reset]'s interval. *)
Lemma replay_uniform_in_bounds : uniform_in_bounds (-0.05) 0.05.
Proof.
  intros s.
  change (within (-0.05) 0.05
            (-0.05 + (0.05 - -0.05) * nth (s mod 8) unit_samples 0.5)
          = true).
  pose proof (Nat.mod_upper_bound s 8 ltac:(lia)) as Hlt.
  destruct (s mod 8)%nat as [|[|[|[|[|[|[|[|n]]]]]]]];
    try (vm_compute; reflexivity).
  lia.
Qed.

Lemma reset_postcondition_witness :
  exists a b c d w',
    reset (ref_fresh 0 0) = (inr (Array4 a b c d), w')
    /\ draw4 (-0.05) 0.05 (np_random (self (ref_fresh 0 0)))
       = ((a, b, c, d), np_random (self w'))
    /\ state (self w') = Some (a, b, c, d)
    /\ steps_beyond_done (self w') = None
    /\ within (-0.05) 0.05 a = true
    /\ within (-0.05) 0.05 b = true
    /\ within (-0.05) 0.05 c = true
    /\ within (-0.05) 0.05 d = true.
Proof.
  apply (reset_postcondition (ref_fresh 0 0)).
  exact replay_uniform_in_bounds.
Defined.

Lemma ref_moving_reachable : reachable ref_moving.
Proof.
  exists 1%Z, 0%Z, 3%nat,
    [CallSeed (Some 0%Z) 0%Z; CallReset; CallStep 1%Z; CallStep 1%Z].
  reflexivity.
Qed.

Lemma ref_moving_state :
  state (self ref_moving)
  = Some (0.0046355463636363649, 0.38857707687287774,
          -0.0046353216136363644, -0.54536528811014384).
Proof. vm_compute. reflexivity. Qed.

Lemma euler_integration_witness :
  let w := ref_moving in
  let x := 0.0046355463636363649 in
  let x_dot := 0.38857707687287774 in
  let theta := -0.0046353216136363644 in
  let theta_dot := -0.54536528811014384 in
  let e := self w in
  let d := step_draws w in
  let noise := fst (uniform (-0.30) 0.30 (np_random e)) in
  let temp := spec_temp e (spec_force e 1) x_dot theta theta_dot (g1 d) in
  let thetaacc := spec_thetaacc e temp theta theta_dot (g2 d) (g3 d) in
  let xacc := spec_xacc e temp thetaacc theta in
  let w' := snd (step 1 w) in
  tau (self w') = 0.02
  /\ state (self w')
     = Some (x + 0.02 * x_dot,
             x_dot + 0.02 * xacc,
             (theta + 0.02 * theta_dot) * (1 + noise),
             theta_dot + 0.02 * thetaacc)
  /\ np_random (self w') = snd (uniform (-0.30) 0.30 (np_random e))
  /\ ((exists res,
         fst (step 1 w) = inr res
         /\ observation res
            = Array4 (x + 0.02 * x_dot) (x_dot + 0.02 * xacc)
                ((theta + 0.02 * theta_dot) * (1 + noise))
                (theta_dot + 0.02 * thetaacc))
      \/ (fst (step 1 w) = inl AttributeError
          /\ steps_beyond_done e = Some 0%Z)).
Proof.
  intros w x x_dot theta theta_dot.
  exact (euler_integration w 1 x x_dot theta theta_dot
           ref_moving_reachable (or_intror eq_refl) ref_moving_state
           eq_refl).
Defined.

(** That call in numbers: the noise is -0.3, the three normals are 1, -1
    and 0.5, and the angle is the updated angle times 0.7. *)
Example moving_step_run :
  (noise (step_draws ref_moving), g1 (step_draws ref_moving),
   g2 (step_draws ref_moving), g3 (step_draws ref_moving),
   state (self (snd (step 1 ref_moving))),
   (-0.0046353216136363644 + 0.02 * -0.54536528811014384) * (1 + -0.3))
  = (-0.3, 1, -1, 0.5,
     Some (0.012407087901093919, 0.57108948272264515,
           -0.010879839163087468, -0.8232321871599948),
     -0.010879839163087468).
Proof. vm_compute. reflexivity. Qed.

Lemma coefficient_jitter_witness :
  let e := self ref_moving in
  let '(g1, r1) := randn (np_random_global ref_moving) in
  let '(g2, r2) := randn r1 in
  let '(g3, r3) := randn r2 in
  let force := if (1 =? 1)%Z then force_mag e else - force_mag e in
  let cart_friction := frictioncart e * (4 + 0.99 * g1) in
  let grav := gravity e * (4 + 0.99 * g2) in
  let pole_friction := frictionpole e * (4 + 0.99 * g3) in
  let temp :=
    (force
     + polemass_length e * -0.54536528811014384 * -0.54536528811014384
       * sin (-0.0046353216136363644)
     - cart_friction * np_sign 0.38857707687287774) / total_mass e in
  let thetaacc :=
    (grav * sin (-0.0046353216136363644)
     - cos (-0.0046353216136363644) * temp
     - pole_friction * -0.54536528811014384 / polemass_length e)
    / (length e
       * (4.0 / 3.0
          - masspole e * cos (-0.0046353216136363644)
            * cos (-0.0046353216136363644) / total_mass e)) in
  let xacc :=
    temp
    - polemass_length e * thetaacc * cos (-0.0046353216136363644)
      / total_mass e in
  frictioncart_eps e = 0.99 /\ gravity_eps e = 0.99
  /\ frictionpole_eps e = 0.99
  /\ exists x' theta',
       state (self (snd (step 1 ref_moving)))
       = Some (x', 0.38857707687287774 + tau e * xacc, theta',
               -0.54536528811014384 + tau e * thetaacc)
       /\ np_random_global (snd (step 1 ref_moving)) = r3.
Proof.
  exact (coefficient_jitter ref_moving 1 0.0046355463636363649
           0.38857707687287774 (-0.0046353216136363644)
           (-0.54536528811014384)
           ref_moving_reachable (or_intror eq_refl) ref_moving_state
           eq_refl).
Defined.

Lemma steps_beyond_done_monotone_witness :
  let w0 := ref_cart_at 2.4 1 in
  let w1 := snd (step 1 w0) in
  let w2 := snd (step 1 w1) in
  let t1 := {| before := w1; outcome := fst (step 1 w1);
               after := snd (step 1 w1) |} in
  let t2 := {| before := w2; outcome := fst (step 1 w2);
               after := snd (step 1 w2) |} in
  (exists m, steps_beyond_done (self (after t2)) = Some m /\ (0 <= m)%Z)
  /\ steps_beyond_done (self (snd (reset (after t2)))) = None.
Proof.
  intros w0 w1 w2 t1 t2.
  assert (H1 : nth_error (step_trace [1%Z; 1%Z; 1%Z] w0) 1 = Some t1)
    by (vm_compute; reflexivity).
  assert (H2 : nth_error (step_trace [1%Z; 1%Z; 1%Z] w0) 2 = Some t2)
    by (vm_compute; reflexivity).
  assert (H0 : steps_beyond_done (self (before t1)) = Some 0%Z)
    by (vm_compute; reflexivity).
  exact (steps_beyond_done_monotone [1%Z; 1%Z; 1%Z] w0 1 2 t1 t2 0
           (le_S 1 1 (le_n 1)) H1 H2 H0).
Defined.

(** * The further properties on concrete inputs *)

Lemma step_outcome_cases_witness :
  match step 1 ref_done with
  | (inl e, w') =>
      e = (if negb ((1 =? 0)%Z || (1 =? 1)%Z) then AssertionError
           else match state (self ref_done) with
                | None => TypeError
                | Some (_, _, theta, _) =>
                    if is_infinity theta then ValueError
                    else AttributeError
                end)
      /\ (e <> AttributeError -> w' = ref_done)
      /\ (e = AttributeError ->
          steps_beyond_done (self ref_done) = Some 0%Z
          /\ exists s,
               state (self ref_done) = Some s
               /\ spec_done (self ref_done) (spec_post_state ref_done 1 s)
                  = true
               /\ w' = state_written 1 ref_done s)
  | (inr res, _) =>
      (1 = 0 \/ 1 = 1)%Z
      /\ (exists x x_dot theta theta_dot,
            state (self ref_done) = Some (x, x_dot, theta, theta_dot)
            /\ is_infinity theta = false)
      /\ (done res = true -> steps_beyond_done (self ref_done) <> Some 0%Z)
  end.
Proof.
  exact (step_outcome_cases ref_done 1 ref_done_reachable).
Defined.

Lemma action_shows_one_step_late_witness :
  let r1 := returned (fst (step 1 ref_started)) in
  let w1' := snd (step 1 ref_started) in
  let r2 := returned (fst (step 0 ref_started_elsewhere)) in
  let w2' := snd (step 0 ref_started_elsewhere) in
  done r1 = done r2
  /\ reward r1 = reward r2
  /\ steps_beyond_done (self w1') = steps_beyond_done (self w2')
  /\ np_random (self w1') = np_random (self w2')
  /\ exists x theta v1 o1 v2 o2,
       state (self w1') = Some (x, v1, theta, o1)
       /\ state (self w2') = Some (x, v2, theta, o2).
Proof.
  intros r1 w1' r2 w2'.
  assert (H1 : step 1 ref_started = (inr r1, w1'))
    by (vm_compute; reflexivity).
  assert (H2 : step 0 ref_started_elsewhere = (inr r2, w2'))
    by (vm_compute; reflexivity).
  exact (action_shows_one_step_late ref_started ref_started_elsewhere
           w1' w2' 1 0 r1 r2 eq_refl H1 H2).
Defined.

(** The two calls of that witness: the positions agree, the velocities do
    not. *)
Example one_step_late_run :
  (observation (returned (fst (step 1 ref_started))),
   observation (returned (fst (step 0 ref_started_elsewhere))))
  = (Array4 0.00050000000000000023 0.20678181818181823 0
       (-0.27267272727272734),
     Array4 0.00050000000000000023 (-0.15687254545454549) 0
       0.27280881818181824).
Proof. vm_compute. reflexivity. Qed.

Lemma ref_overstepped_reachable : reachable ref_overstepped.
Proof.
  exists 1%Z, 0%Z, 0%nat,
    ([CallSeed (Some 0%Z) 0%Z; CallReset] ++ repeat (CallStep 1%Z) 10).
  reflexivity.
Qed.

Lemma returned_reward_is_one_witness :
  reward (returned (fst (step 1 ref_moving))) = 1.0.
Proof.
  assert (H : step 1 ref_moving
              = (inr (returned (fst (step 1 ref_moving))),
                 snd (step 1 ref_moving)))
    by (vm_compute; reflexivity).
  exact (returned_reward_is_one ref_moving (snd (step 1 ref_moving)) 1
           (returned (fst (step 1 ref_moving))) ref_moving_reachable H).
Defined.

Lemma counter_none_or_zero_witness :
  steps_beyond_done (self ref_overstepped) = None
  \/ steps_beyond_done (self ref_overstepped) = Some 0%Z.
Proof.
  exact (counter_none_or_zero ref_overstepped ref_overstepped_reachable).
Defined.

(** Ten and twenty over-stepping calls later the counter is where the
    ninth call put it. *)
Example counter_stays_zero :
  (steps_beyond_done (self ref_overstepped),
   steps_beyond_done
     (self (calls (repeat (CallStep 1%Z) 10) ref_overstepped)))
  = (Some 0%Z, Some 0%Z).
Proof. vm_compute. reflexivity. Qed.

Lemma seeded_reset_reproducible_witness :
  let r1 := reset (snd (seed (Some 7%Z) 0%Z (ref_fresh 0 0))) in
  let r2 := reset (snd (seed (Some 7%Z) 5%Z ref_overstepped)) in
  fst r1 = fst r2
  /\ fst r1
     = inr (np_array
              (Some (fst (draw4 (-0.05) 0.05 (seeded (7 mod 2 ^ 64))))))
  /\ state (self (snd r1)) = state (self (snd r2))
  /\ steps_beyond_done (self (snd r1)) = steps_beyond_done (self (snd r2))
  /\ np_random (self (snd r1)) = np_random (self (snd r2)).
Proof.
  apply (seeded_reset_reproducible 7 0 5 (ref_fresh 0 0) ref_overstepped).
  lia.
Defined.

(** A refused seed leaves the generator alone, so the next [reset] draws
    from wherever each process was. *)
Example negative_seed_refused :
  (fst (seed (Some (-1)%Z) 0%Z ref_started),
   np_random (self (snd (seed (Some (-1)%Z) 0%Z ref_started))),
   np_random (self ref_started))
  = (inl GymError, 4%nat, 4%nat).
Proof. vm_compute. reflexivity. Qed.

Lemma step_after_reset_returns_witness :
  exists res w', step 1 (snd (reset ref_started)) = (inr res, w').
Proof.
  apply (step_after_reset_returns ref_started 1).
  - exact replay_uniform_in_bounds.
  - exact ref_started_reachable.
  - right. reflexivity.
Defined.

Lemma nan_state_never_done_witness :
  Forall (fun t =>
            exists res v o,
              outcome t = inr res
              /\ done res = false
              /\ reward res = 1.0
              /\ state (self (after t)) = Some (nan, v, nan, o))
         (step_trace [0%Z; 1%Z] (ref_in_state (nan, 0, nan, 0))).
Proof.
  apply (nan_state_never_done [0%Z; 1%Z] (ref_in_state (nan, 0, nan, 0))
           0 0).
  - reflexivity.
  - constructor; [left; reflexivity|].
    constructor; [right; reflexivity|]. constructor.
  - reflexivity.
Defined.

Lemma infinite_angle_blocks_steps_witness :
  Forall (fun t => (exists e, outcome t = inl e)
                   /\ after t = ref_in_state (0, 0, infinity, 0))
         (step_trace [1%Z; 2%Z] (ref_in_state (0, 0, infinity, 0)))
  /\ calls (map CallStep [1%Z; 2%Z]) (ref_in_state (0, 0, infinity, 0))
     = ref_in_state (0, 0, infinity, 0)
  /\ exists s,
       state (self (snd (reset (ref_in_state (0, 0, infinity, 0)))))
       = Some s.
Proof.
  apply (infinite_angle_blocks_steps [1%Z; 2%Z]
           (ref_in_state (0, 0, infinity, 0)) 0 0 infinity 0).
  - reflexivity.
  - reflexivity.
Defined.
